(** * Secret Santa: participant registry and assignment engine

    A shallow embedding of [main.py]: the in-memory registry (the module
    globals [participants] and [shuffled]), the snapshot written by
    [save_data] and read by [load_data], the rejection-sampling loop of
    [build_valid_assignment], and the request handlers [add_participant],
    [list_participants], [remove_participant], [shuffle] and
    [get_assignment].

    Conventions.
    - A Python [str] is a [string]; one [ascii] stands for one code point
      of the range U+0000..U+00FF.
    - A Python [dict] keeps insertion order, so it is an association list
      handled through [Dict.get], [Dict.set] and [Dict.pop], which follow
      the dict's behaviour (assignment to a present key keeps its
      position, assignment to a new key appends).
    - The hidden generator of the [random] module is a stream of draws
      with a cursor; [random.shuffle] is the Fisher-Yates loop of CPython.
    - The [while True] loop of [build_valid_assignment] is bounded by a
      fuel argument; running out of fuel is the outcome [Diverges].
    - A raised exception is an outcome of its own and carries the state
      the globals are left in.
    - [save_data] is the write that goes through. A write that raises
      is a transition of its own, [stale_write], of the systems
      [serving] and [serving_from_fresh]. *)

From Stdlib Require Import List String Ascii Bool Arith Lia Permutation.
Import ListNotations.
Local Open Scope string_scope.
Local Open Scope list_scope.

Set Implicit Arguments.

(* ================================================================= *)
(** ** Python strings *)

Module PyStr.

(** [str.isspace] on one character, for the code points below 256:
    TAB..CR, FS..US, SPACE, NEL (U+0085) and NBSP (U+00A0). *)
Definition isspace (c : ascii) : bool :=
  let n := nat_of_ascii c in
  (((9 <=? n) && (n <=? 13)) || ((28 <=? n) && (n <=? 32))
   || (n =? 133) || (n =? 160))%nat.

(** [s.lstrip()] *)
Fixpoint lstrip (s : string) : string :=
  match s with
  | EmptyString => EmptyString
  | String c rest => if isspace c then lstrip rest else s
  end.

(** Whether every character of [s] is whitespace (true for [""]). *)
Fixpoint blank (s : string) : bool :=
  match s with
  | EmptyString => true
  | String c rest => isspace c && blank rest
  end.

(** [s.rstrip()] *)
Fixpoint rstrip (s : string) : string :=
  match s with
  | EmptyString => EmptyString
  | String c rest => if blank s then EmptyString else String c (rstrip rest)
  end.

(** [s.strip()] *)
Definition strip (s : string) : string := rstrip (lstrip s).

(** Truth value of a [str]: non-empty. *)
Definition truthy (s : string) : bool :=
  match s with EmptyString => false | String _ _ => true end.

End PyStr.

(* ================================================================= *)
(** ** Insertion-ordered dictionaries with [str] keys *)

Module Dict.

Definition t (V : Type) : Type := list (string * V).

Definition empty {V : Type} : t V := [].

(** [list(d.keys())], [list(d.values())]; [d.items()] is [d] itself. *)
Definition keys {V : Type} (d : t V) : list string := map fst d.
Definition values {V : Type} (d : t V) : list V := map snd d.

(** [d.get(k)] *)
Fixpoint get {V : Type} (k : string) (d : t V) : option V :=
  match d with
  | [] => None
  | (k', v) :: rest => if String.eqb k k' then Some v else get k rest
  end.

(** [k in d] *)
Definition mem {V : Type} (k : string) (d : t V) : bool :=
  match get k d with Some _ => true | None => false end.

(** [d[k] = v]: a present key keeps its place, a new key goes last. *)
Fixpoint set {V : Type} (k : string) (v : V) (d : t V) : t V :=
  match d with
  | [] => [(k, v)]
  | (k', v') :: rest =>
      if String.eqb k k' then (k', v) :: rest else (k', v') :: set k v rest
  end.

(** [d.pop(k)] for a present key (the callers test [k in d] first). *)
Fixpoint pop {V : Type} (k : string) (d : t V) : t V :=
  match d with
  | [] => []
  | (k', v') :: rest =>
      if String.eqb k k' then rest else (k', v') :: pop k rest
  end.

(** [{k: v for k, v in pairs}]: the pairs are stored one by one. *)
Definition of_pairs {V : Type} (pairs : list (string * V)) : t V :=
  fold_left (fun d kv => set (fst kv) (snd kv) d) pairs empty.

End Dict.

(* ================================================================= *)
(** ** The [random] module *)

Module Random.

(** The generator: an unbounded sequence of raw draws and the number of
    draws already consumed. *)
Record rng : Type := { draws : nat -> nat; cursor : nat }.

(** [_randbelow(n)] for [n > 0]: a number below [n]. Every sequence of
    numbers below their bounds is what some generator returns. *)
Definition randbelow (n : nat) (g : rng) : nat * rng :=
  (draws g (cursor g) mod n, {| draws := draws g; cursor := S (cursor g) |}).

(** [x[i] = a] *)
Fixpoint list_set {A : Type} (i : nat) (a : A) (x : list A) : list A :=
  match x, i with
  | [], _ => []
  | _ :: rest, 0 => a :: rest
  | b :: rest, S i' => b :: list_set i' a rest
  end.

(** [x[i], x[j] = x[j], x[i]]: both reads, then the write to [x[i]],
    then the write to [x[j]]. Both indices are in range in [shuffle]. *)
Definition swap {A : Type} (i j : nat) (x : list A) : list A :=
  match nth_error x j, nth_error x i with
  | Some xj, Some xi => list_set j xi (list_set i xj x)
  | _, _ => x
  end.

(** The body of [random.shuffle]:
    [for i in reversed(range(1, len(x))): j = randbelow(i + 1); swap],
    with [i] the largest index still to visit. *)
Fixpoint shuffle_from {A : Type} (i : nat) (g : rng) (x : list A)
  : list A * rng :=
  match i with
  | 0 => (x, g)
  | S i' =>
      let (j, g') := randbelow (S i) g in
      shuffle_from i' g' (swap i j x)
  end.

(** [random.shuffle(x)], returning the shuffled list. *)
Definition shuffle {A : Type} (g : rng) (x : list A) : list A * rng :=
  shuffle_from (List.length x - 1) g x.

End Random.

(* ================================================================= *)
(** ** The assignment engine *)

(** [all(giver != receiver for giver, receiver in zip(ids, receivers))] *)
Definition no_self_pair (pairs : list (string * string)) : bool :=
  forallb (fun gr => negb (String.eqb (fst gr) (snd gr))) pairs.

(** [build_valid_assignment(ids)]: shuffle a copy of [ids] until no
    position holds its own identity, then pair the two lists up.
    [None] is the loop still running when the fuel is spent. *)
Fixpoint build_valid_assignment (fuel : nat) (g : Random.rng)
    (ids : list string) : option (Dict.t string * Random.rng) :=
  match fuel with
  | 0 => None
  | S fuel' =>
      let (receivers, g') := Random.shuffle g ids in
      if no_self_pair (combine ids receivers)
      then Some (Dict.of_pairs (combine ids receivers), g')
      else build_valid_assignment fuel' g' ids
  end.

(* ================================================================= *)
(** ** Data model *)

(** [class ParticipantIn(BaseModel)]: the body of a join request. *)
Module ParticipantIn.

Record t : Type := { name : string; giftPreference : option string }.

(** [name: str = Field(..., min_length=1)]: the only constraint, on
    the name as submitted. *)
Definition valid (body : t) : bool := (1 <=? String.length (name body))%nat.

End ParticipantIn.

(** [class Participant(BaseModel)] *)
Record Participant : Type := {
  id : string;
  name : string;
  giftPreference : option string;
  assignedTo : option string
}.

(** [participant.assignedTo = receiver_id] *)
Definition set_assignedTo (p : Participant) (a : option string) : Participant :=
  {| id := id p; name := name p; giftPreference := giftPreference p;
     assignedTo := a |}.

(** A JSON object whose values are strings or [null]. *)
Definition item : Type := Dict.t (option string).

(** [p.model_dump()] *)
Definition model_dump (p : Participant) : item :=
  [ ("id", Some (id p)); ("name", Some (name p));
    ("giftPreference", giftPreference p); ("assignedTo", assignedTo p) ].

(** The content of the data file as [json.loads] returns it: an object
    whose keys ["participants"] and ["shuffled"] may each be missing. *)
Record snapshot : Type := {
  snap_participants : option (list item);
  snap_shuffled : option bool
}.

(** The module globals, the data file ([None]: no such file) and the
    state of the [random] module. *)
Record state : Type := {
  ADMIN_SECRET : string;
  participants : Dict.t Participant;
  shuffled : bool;
  DATA_FILE : option snapshot;
  random_state : Random.rng
}.

Definition with_registry (d : Dict.t Participant) (b : bool) (s : state)
  : state :=
  {| ADMIN_SECRET := ADMIN_SECRET s; participants := d; shuffled := b;
     DATA_FILE := DATA_FILE s; random_state := random_state s |}.

Definition with_participants (d : Dict.t Participant) (s : state) : state :=
  with_registry d (shuffled s) s.

Definition with_random (g : Random.rng) (s : state) : state :=
  {| ADMIN_SECRET := ADMIN_SECRET s; participants := participants s;
     shuffled := shuffled s; DATA_FILE := DATA_FILE s; random_state := g |}.

(* ================================================================= *)
(** ** Exceptions and outcomes *)

(** The [detail] texts of the handlers' [HTTPException]s, one
    constructor per distinct text. *)
Inductive detail_text : Type :=
| WrongSecret          (* 403, require_admin *)
| JoinAfterShuffle     (* 400, add_participant *)
| RemoveAfterShuffle   (* 400, remove_participant *)
| NoSuchParticipant    (* 404, remove_participant and get_assignment *)
| ShuffleAlreadyDone   (* 400, shuffle *)
| NeedTwoParticipants  (* 400, shuffle *)
| AssignmentNotReady   (* 400, get_assignment *)
| AssignmentDataBroken (* 500, get_assignment *).

Inductive exception : Type :=
| HTTPException (status_code : nat) (detail : detail_text)
| RequestValidationError   (* the request body is no ParticipantIn: 422 *)
| ValidationError          (* pydantic rejects a stored item *)
| KeyError.

(** The failures with the names the specification uses. *)
Definition Forbidden : exception := HTTPException 403 WrongSecret.
Definition InvalidInput : exception := RequestValidationError.
Definition AlreadyClosed_join : exception := HTTPException 400 JoinAfterShuffle.
Definition AlreadyClosed_remove : exception :=
  HTTPException 400 RemoveAfterShuffle.
Definition AlreadyShuffled : exception := HTTPException 400 ShuffleAlreadyDone.
Definition NotFound : exception := HTTPException 404 NoSuchParticipant.
Definition InsufficientParticipants : exception :=
  HTTPException 400 NeedTwoParticipants.
Definition NotReady : exception := HTTPException 400 AssignmentNotReady.
Definition AssignmentIncomplete : exception :=
  HTTPException 500 AssignmentDataBroken.

(** What a call does: return a value, raise, or never come back. *)
Inductive outcome (A : Type) : Type :=
| Returns (a : A) (s : state)
| Raises (e : exception) (s : state)
| Diverges.

Arguments Returns {A} a s.
Arguments Raises {A} e s.
Arguments Diverges {A}.

(** The state a call leaves behind, when it ends. *)
Definition final_state {A : Type} (o : outcome A) : option state :=
  match o with
  | Returns _ s => Some s
  | Raises _ s => Some s
  | Diverges => None
  end.

(* ================================================================= *)
(** ** Persistence *)

(** The [payload] of [save_data]. *)
Definition payload (s : state) : snapshot :=
  {| snap_participants :=
       Some (map model_dump (Dict.values (participants s)));
     snap_shuffled := Some (shuffled s) |}.

(** [save_data()]: the whole registry replaces the file's content. *)
Definition save_data (s : state) : state :=
  {| ADMIN_SECRET := ADMIN_SECRET s; participants := participants s;
     shuffled := shuffled s; DATA_FILE := Some (payload s);
     random_state := random_state s |}.

(** An optional field of a [Participant] built from the keys of an
    item: a missing key and [null] both give [None]. *)
Definition optional_field (k : string) (it : item) : option string :=
  match Dict.get k it with Some v => v | None => None end.

(** The [Participant] built from the keys of an item (the constructor
    called on the unpacked item): [id] and [name] must be strings, other
    keys are ignored. [None] is pydantic's [ValidationError]. *)
Definition Participant_of_item (it : item) : option Participant :=
  match Dict.get "id" it, Dict.get "name" it with
  | Some (Some i), Some (Some n) =>
      Some {| id := i; name := n;
              giftPreference := optional_field "giftPreference" it;
              assignedTo := optional_field "assignedTo" it |}
  | _, _ => None
  end.

(** The dict comprehension of [load_data]:
    [{item["id"]: Participant(..item..) for item in participant_list
      if "id" in item and "name" in item}], with [acc] the dict built so
    far. [None] is a [ValidationError] escaping the comprehension. *)
Fixpoint load_participants (participant_list : list item)
    (acc : Dict.t Participant) : option (Dict.t Participant) :=
  match participant_list with
  | [] => Some acc
  | it :: rest =>
      if Dict.mem "id" it && Dict.mem "name" it then
        match Dict.get "id" it, Participant_of_item it with
        | Some (Some key), Some p => load_participants rest (Dict.set key p acc)
        | _, _ => None
        end
      else load_participants rest acc
  end.

(** [any(p.assignedTo is not None for p in participants.values())] *)
Definition any_assigned (d : Dict.t Participant) : bool :=
  existsb (fun p => match assignedTo p with Some _ => true | None => false end)
          (Dict.values d).

(** [raw.get("participants", [])] *)
Definition stored_items (raw : snapshot) : list item :=
  match snap_participants raw with Some l => l | None => [] end.

(** [raw.get("shuffled", False)] *)
Definition stored_flag (raw : snapshot) : bool :=
  match snap_shuffled raw with Some b => b | None => false end.

(** [load_data()] *)
Definition load_data (s : state) : outcome unit :=
  match DATA_FILE s with
  | None => Returns tt s
  | Some raw =>
      let participant_list := stored_items raw in
      match load_participants participant_list Dict.empty with
      | None => Raises ValidationError s
      | Some d =>
          Returns tt (with_registry d (stored_flag raw || any_assigned d) s)
      end
  end.

(** Process start: the globals as the module initialises them
    ([participants = {}], [shuffled = False]), then [load_data()]. *)
Definition boot (secret : string) (file : option snapshot) (g : Random.rng)
  : outcome unit :=
  load_data {| ADMIN_SECRET := secret; participants := Dict.empty;
               shuffled := false; DATA_FILE := file; random_state := g |}.

(* ================================================================= *)
(** ** Request handlers *)

(** The JSON bodies the handlers answer with, without their constant
    ["message"] texts. *)
Inductive response : Type :=
| Joined (participant_id : string) (assignmentLink : string)
| Listing (l : list Participant)
| Removed
| ShuffleReady (assignments : list (string * string)) (* giver, receiver names *)
| Assignment (youAreGivingTo : item).

(** [require_admin(secret)]: [true] when it returns, [false] when it
    raises the 403. *)
Definition require_admin (secret : option string) (s : state) : bool :=
  match secret with
  | Some x => String.eqb x (ADMIN_SECRET s)
  | None => false
  end.

(** [POST /participants]. The framework builds the [ParticipantIn] from
    the body before the handler runs and answers 422 when that fails;
    [participant_id] is the value of [str(uuid.uuid4())]. *)
Definition add_participant (participant_in : ParticipantIn.t)
    (participant_id : string) (s : state) : outcome response :=
  if negb (ParticipantIn.valid participant_in) then
    Raises RequestValidationError s
  else if shuffled s then Raises (HTTPException 400 JoinAfterShuffle) s
  else
    let participant :=
      {| id := participant_id;
         name := PyStr.strip (ParticipantIn.name participant_in);
         giftPreference :=
           match ParticipantIn.giftPreference participant_in with
           | Some pref =>
               if PyStr.truthy pref then Some (PyStr.strip pref) else None
           | None => None
           end;
         assignedTo := None |} in
    Returns
      (Joined participant_id ("/my-assignment/" ++ participant_id))
      (save_data
         (with_participants
            (Dict.set participant_id participant (participants s)) s)).

(** [GET /participants] *)
Definition list_participants (secret : option string) (s : state)
  : outcome response :=
  if negb (require_admin secret s) then Raises (HTTPException 403 WrongSecret) s
  else Returns (Listing (Dict.values (participants s))) s.

(** [DELETE /participants/{participant_id}] *)
Definition remove_participant (participant_id : string)
    (secret : option string) (s : state) : outcome response :=
  if negb (require_admin secret s) then Raises (HTTPException 403 WrongSecret) s
  else if shuffled s then Raises (HTTPException 400 RemoveAfterShuffle) s
  else if negb (Dict.mem participant_id (participants s)) then
    Raises (HTTPException 404 NoSuchParticipant) s
  else
    Returns Removed
      (save_data
         (with_participants (Dict.pop participant_id (participants s)) s)).

(** The loop [for giver_id, receiver_id in assignment_map.items():
    participants[giver_id].assignedTo = receiver_id]. The flag is
    [false] when a subscript raised [KeyError]; the dict is the one
    reached by then. *)
Fixpoint assign_all (items : list (string * string))
    (d : Dict.t Participant) : Dict.t Participant * bool :=
  match items with
  | [] => (d, true)
  | (giver_id, receiver_id) :: rest =>
      match Dict.get giver_id d with
      | None => (d, false)
      | Some p =>
          assign_all rest
            (Dict.set giver_id (set_assignedTo p (Some receiver_id)) d)
      end
  end.

(** The list [assignments_for_admin]; [None] when a subscript raised
    [KeyError]. *)
Fixpoint assignments_for_admin (items : list (string * string))
    (d : Dict.t Participant) : option (list (string * string)) :=
  match items with
  | [] => Some []
  | (giver_id, receiver_id) :: rest =>
      match Dict.get giver_id d, Dict.get receiver_id d with
      | Some giver, Some receiver =>
          match assignments_for_admin rest d with
          | Some l => Some ((name giver, name receiver) :: l)
          | None => None
          end
      | _, _ => None
      end
  end.

(** [POST /shuffle] *)
Definition shuffle (fuel : nat) (secret : option string) (s : state)
  : outcome response :=
  if negb (require_admin secret s) then Raises (HTTPException 403 WrongSecret) s
  else if shuffled s then Raises (HTTPException 400 ShuffleAlreadyDone) s
  else if (List.length (participants s) <? 2)%nat then
    Raises (HTTPException 400 NeedTwoParticipants) s
  else
    let ids := Dict.keys (participants s) in
    match build_valid_assignment fuel (random_state s) ids with
    | None => Diverges
    | Some (assignment_map, g) =>
        match assign_all assignment_map (participants s) with
        | (d, false) =>
            Raises KeyError (with_random g (with_participants d s))
        | (d, true) =>
            let s' := save_data (with_random g (with_registry d true s)) in
            match assignments_for_admin assignment_map (participants s') with
            | None => Raises KeyError s'
            | Some l => Returns (ShuffleReady l) s'
            end
        end
    end.

(** [GET /assignment/{participant_id}] *)
Definition get_assignment (participant_id : string) (s : state)
  : outcome response :=
  match Dict.get participant_id (participants s) with
  | None => Raises (HTTPException 404 NoSuchParticipant) s
  | Some participant =>
      match assignedTo participant with
      | None => Raises (HTTPException 400 AssignmentNotReady) s
      | Some receiver_id =>
          if negb (PyStr.truthy receiver_id) then
            Raises (HTTPException 400 AssignmentNotReady) s
          else
            match Dict.get receiver_id (participants s) with
            | None => Raises (HTTPException 500 AssignmentDataBroken) s
            | Some receiver =>
                Returns
                  (Assignment [ ("name", Some (name receiver));
                                ("giftPreference", giftPreference receiver) ])
                  s
            end
      end
  end.

(* ================================================================= *)
(** ** The service as a transition system *)

(** One request, with what the environment supplies to it: the UUID
    drawn for a join, the patience of whoever waits for a shuffle. *)
Inductive request : Type :=
| Join (participant_in : ParticipantIn.t) (uuid4 : string)
| ListAll (secret : option string)
| Remove (participant_id : string) (secret : option string)
| Shuffle (secret : option string) (fuel : nat)
| GetAssignment (participant_id : string).

Definition handle (r : request) (s : state) : outcome response :=
  match r with
  | Join participant_in uuid4 => add_participant participant_in uuid4 s
  | ListAll secret => list_participants secret s
  | Remove participant_id secret => remove_participant participant_id secret s
  | Shuffle secret fuel => shuffle fuel secret s
  | GetAssignment participant_id => get_assignment participant_id s
  end.

(** A first start on an installation without a data file. *)
Definition fresh (secret : string) (g : Random.rng) : state :=
  {| ADMIN_SECRET := secret; participants := Dict.empty; shuffled := false;
     DATA_FILE := None; random_state := g |}.

(** The states the service goes through: it starts on a fresh
    installation, answers requests, and may be stopped and started again
    on the data file it wrote (with any admin secret and any generator
    state). *)
Inductive reachable : state -> Prop :=
| reach_fresh : forall secret g, reachable (fresh secret g)
| reach_handle : forall s r s',
    reachable s -> final_state (handle r s) = Some s' -> reachable s'
| reach_restart : forall s secret g s',
    reachable s ->
    boot secret (DATA_FILE s) g = Returns tt s' -> reachable s'.

(** The states of a service started on an arbitrary data file, or on
    none, that it managed to load. *)
Inductive running : state -> Prop :=
| running_boot : forall secret file g s,
    boot secret file g = Returns tt s -> running s
| running_handle : forall s r s',
    running s -> final_state (handle r s) = Some s' -> running s'.

(** Several requests in a row; [None] when one of them never returns. *)
Fixpoint run (rs : list request) (s : state) : option state :=
  match rs with
  | [] => Some s
  | r :: rest =>
      match final_state (handle r s) with
      | Some s' => run rest s'
      | None => None
      end
  end.

(* ================================================================= *)
(** ** Predicates of the specification *)

(** A generator all of whose draws are [0]. *)
Definition zeros (c : nat) : Random.rng :=
  {| Random.draws := fun _ => 0; Random.cursor := c |}.

(** [m] is a self-free bijection on [ids]: every identity of [ids] is a
    key exactly once and a value exactly once, nothing else is a key or a
    value, and no key is paired with itself. *)
Definition derangement_of (ids : list string) (m : Dict.t string) : Prop :=
  (forall x, In x ids ->
     count_occ string_dec (Dict.keys m) x = 1 /\
     count_occ string_dec (Dict.values m) x = 1) /\
  (forall k v, In (k, v) m -> In k ids /\ In v ids /\ k <> v).

(** An item that the comprehension of [load_data] gets past: it is
    skipped for lacking ["id"] or ["name"], or both are strings. *)
Definition loadable (it : item) : bool :=
  if Dict.mem "id" it && Dict.mem "name" it then
    match Dict.get "id" it, Dict.get "name" it with
    | Some (Some _), Some (Some _) => true
    | _, _ => false
    end
  else true.

(** The registry as the handlers build it: no key twice (a dict has
    none), and every record filed under its own [id]. *)
Definition registry_wf (d : Dict.t Participant) : Prop :=
  NoDup (Dict.keys d) /\ Forall (fun kp => id (snd kp) = fst kp) d.

(** The invariant on [assignedTo]: when set, it names a key of the
    registry other than the owner's identity. *)
Definition assigned_ok (d : Dict.t Participant) : Prop :=
  forall k p r,
    In (k, p) d -> assignedTo p = Some r ->
    In r (Dict.keys d) /\ r <> id p /\ r <> k.

(** The data file holds what [save_data] writes for the registry in
    memory, or is still missing on an installation that never wrote. *)
Definition file_synced (s : state) : Prop :=
  DATA_FILE s = Some (payload s) \/
  (DATA_FILE s = None /\ participants s = Dict.empty /\ shuffled s = false).

(** What holds of the registry of a running service, whatever data file
    it was started on: it is well formed, and while the gate is open
    nobody has an assignment. *)
Definition consistent (s : state) : Prop :=
  registry_wf (participants s) /\
  (shuffled s = false -> any_assigned (participants s) = false).

(** What holds in addition when the service started on a fresh
    installation: the invariant on [assignedTo], at least two
    participants once the gate is closed, and a data file in step with
    the memory. *)
Definition invariant (s : state) : Prop :=
  consistent s /\
  assigned_ok (participants s) /\
  (shuffled s = true -> 2 <= List.length (participants s)) /\
  file_synced s.

(** What one request can have done to the state: nothing; a change of
    membership under an open gate; or the one shuffle. *)
Inductive effect (s s' : state) : Prop :=
| effect_none : s' = s -> effect s s'
| effect_membership :
    shuffled s = false -> shuffled s' = false ->
    registry_wf (participants s') ->
    any_assigned (participants s') = false ->
    DATA_FILE s' = Some (payload s') ->
    effect s s'
| effect_shuffle :
    shuffled s = false -> shuffled s' = true ->
    2 <= List.length (participants s') ->
    registry_wf (participants s') ->
    assigned_ok (participants s') ->
    DATA_FILE s' = Some (payload s') ->
    effect s s'.

(** The registry after the assignment loop of [shuffle] gave the
    [i]-th participant the [i]-th receiver. *)
Fixpoint assigned_along (d : Dict.t Participant) (receivers : list string)
  : Dict.t Participant :=
  match d, receivers with
  | (k, p) :: d', r :: receivers' =>
      (k, set_assignedTo p (Some r)) :: assigned_along d' receivers'
  | _, _ => d
  end.

(** Two participants have joined a fresh installation. *)
Definition two_joined : state :=
  save_data
    (with_participants
       [ ("u1", {| id := "u1"; name := "Alice"; giftPreference := None;
                   assignedTo := None |});
         ("u2", {| id := "u2"; name := "Bob"; giftPreference := Some "socks";
                   assignedTo := None |}) ]
       (fresh "santaadmin" (zeros 0))).

(** The same group after the organizer's shuffle, every draw being 0. *)
Definition two_shuffled : state :=
  save_data
    (with_random (zeros 1)
       (with_registry
          [ ("u1", {| id := "u1"; name := "Alice"; giftPreference := None;
                      assignedTo := Some "u2" |});
            ("u2", {| id := "u2"; name := "Bob";
                      giftPreference := Some "socks";
                      assignedTo := Some "u1" |}) ]
          true two_joined)).

(** A data file that kept both assignments of the example group but
    lost its ["shuffled"] key, and the process about to load it. *)
Definition flag_lost_file : snapshot :=
  {| snap_participants :=
       Some (map model_dump (Dict.values (participants two_shuffled)));
     snap_shuffled := None |}.

Definition flag_lost : state :=
  {| ADMIN_SECRET := "santaadmin"; participants := Dict.empty;
     shuffled := false; DATA_FILE := Some flag_lost_file;
     random_state := zeros 0 |}.

(* ================================================================= *)
(** ** Further predicates *)

(** [ "id" in item and "name" in item ] *)
Definition has_id_and_name (it : item) : bool :=
  Dict.mem "id" it && Dict.mem "name" it.

(** The record the comprehension of [load_data] files under [k] when it
    goes through [items]: the one of the last item that has both keys
    and carries [k] as its ["id"]. *)
Fixpoint last_record (k : string) (items : list item) : option Participant :=
  match items with
  | [] => None
  | it :: rest =>
      match last_record k rest with
      | Some p => Some p
      | None =>
          if has_id_and_name it then
            match Participant_of_item it with
            | Some p => if String.eqb k (id p) then Some p else None
            | None => None
            end
          else None
      end
  end.

(** The failures a client is answered with for a request it could have
    made differently. *)
Definition client_error (e : exception) : Prop :=
  e = InvalidInput \/ e = Forbidden \/ e = AlreadyClosed_join \/
  e = AlreadyClosed_remove \/ e = AlreadyShuffled \/ e = NotFound \/
  e = InsufficientParticipants \/ e = NotReady.

(** What a record holds besides its assignment. *)
Definition profile (p : Participant) : string * string * option string :=
  (id p, name p, giftPreference p).

(** A data file that holds a single participant with a leftover
    assignment and no flag, and the service once it has started on it. *)
Definition stray_file : snapshot :=
  {| snap_participants :=
       Some [ [ ("id", Some "u1"); ("name", Some "Alice");
                ("assignedTo", Some "u9") ] ];
     snap_shuffled := None |}.

Definition stray_loaded : state :=
  {| ADMIN_SECRET := "santaadmin";
     participants :=
       [ ("u1", {| id := "u1"; name := "Alice"; giftPreference := None;
                   assignedTo := Some "u9" |}) ];
     shuffled := true; DATA_FILE := Some stray_file;
     random_state := zeros 0 |}.

(* ================================================================= *)
(** ** Failing writes *)

(** In the handlers [save_data()] comes after the globals have changed,
    and its write can raise. The request is then answered with an
    internal error; the globals are as the handler changed them, and the
    data file is as it was before the request, or unreadable. The state
    with the file as it was is [stale_write s s'], for [s] the state
    before the request and [s'] the state the handler leaves when the
    write goes through. An unreadable file admits no restart, and no
    handler reads the file, so it adds no state of the globals. *)
Definition stale_write (s s' : state) : state :=
  {| ADMIN_SECRET := ADMIN_SECRET s'; participants := participants s';
     shuffled := shuffled s'; DATA_FILE := DATA_FILE s;
     random_state := random_state s' |}.

(** The states of a service started on an arbitrary data file that it
    managed to load, with writes that go through or fail. *)
Inductive serving : state -> Prop :=
| serving_boot : forall secret file g s,
    boot secret file g = Returns tt s -> serving s
| serving_handle : forall s r s',
    serving s -> final_state (handle r s) = Some s' -> serving s'
| serving_write_failed : forall s r s',
    serving s -> final_state (handle r s) = Some s' ->
    serving (stale_write s s').

(** The states of a service that started on a fresh installation and
    is stopped and started again on its own data file, with writes that
    go through or fail. *)
Inductive serving_from_fresh : state -> Prop :=
| sf_fresh : forall secret g, serving_from_fresh (fresh secret g)
| sf_handle : forall s r s',
    serving_from_fresh s -> final_state (handle r s) = Some s' ->
    serving_from_fresh s'
| sf_write_failed : forall s r s',
    serving_from_fresh s -> final_state (handle r s) = Some s' ->
    serving_from_fresh (stale_write s s')
| sf_restart : forall s secret g s',
    serving_from_fresh s ->
    boot secret (DATA_FILE s) g = Returns tt s' -> serving_from_fresh s'.

(** What holds of the globals in these states. *)
Definition memory_ok (s : state) : Prop :=
  consistent s /\
  assigned_ok (participants s) /\
  (shuffled s = true -> 2 <= List.length (participants s)).

(** The data file is missing or holds what [save_data] wrote in an
    earlier state. *)
Definition file_sound (s : state) : Prop :=
  DATA_FILE s = None \/
  exists s0, DATA_FILE s = Some (payload s0) /\ memory_ok s0.

(** The requests whose handler calls [save_data()]. *)
Definition writes (r : request) : bool :=
  match r with
  | Join _ _ | Remove _ _ | Shuffle _ _ => true
  | ListAll _ | GetAssignment _ => false
  end.

(* ================================================================= *)
(** * Properties *)

(** ** Dictionaries *)

Section DictFacts.

Context {V : Type}.
Implicit Types (d : Dict.t V) (k : string) (v : V).

Lemma get_In d k v : Dict.get k d = Some v -> In (k, v) d.
Proof.
  induction d as [|[k' v'] d IH]; simpl; [discriminate|].
  destruct (String.eqb_spec k k') as [->|_].
  - intros [= ->]. now left.
  - intros H. right. now apply IH.
Qed.

Lemma get_None_iff d k : Dict.get k d = None <-> ~ In k (Dict.keys d).
Proof.
  induction d as [|[k' v'] d IH]; simpl.
  - tauto.
  - destruct (String.eqb_spec k k') as [->|Hne].
    + split; [discriminate|]. intros H. exfalso. apply H. now left.
    + rewrite IH. split.
      * intros H [E|E]; [congruence|tauto].
      * tauto.
Qed.

Lemma In_get d k v :
  NoDup (Dict.keys d) -> In (k, v) d -> Dict.get k d = Some v.
Proof.
  induction d as [|[k' v'] d IH]; simpl; [tauto|].
  intros Hnd [E|Hin].
  - injection E as -> ->. now rewrite String.eqb_refl.
  - inversion Hnd as [|? ? Hnotin Hnd']; subst.
    destruct (String.eqb_spec k k') as [->|_].
    + exfalso. apply Hnotin. change k' with (fst (k', v)).
      now apply in_map.
    + now apply IH.
Qed.

Lemma mem_true_iff d k : Dict.mem k d = true <-> In k (Dict.keys d).
Proof.
  unfold Dict.mem. destruct (Dict.get k d) eqn:E.
  - split; [intros _|reflexivity].
    apply get_In in E. change k with (fst (k, v)). now apply in_map.
  - split; [discriminate|]. intros H. now apply get_None_iff in E.
Qed.

Lemma set_absent d k v :
  ~ In k (Dict.keys d) -> Dict.set k v d = d ++ [(k, v)].
Proof.
  induction d as [|[k' v'] d IH]; simpl; [reflexivity|].
  intros H. destruct (String.eqb_spec k k') as [->|_].
  - exfalso. apply H. now left.
  - f_equal. apply IH. tauto.
Qed.

Lemma keys_set_present d k v :
  In k (Dict.keys d) -> Dict.keys (Dict.set k v d) = Dict.keys d.
Proof.
  induction d as [|[k' v'] d IH]; simpl; [tauto|].
  intros H. destruct (String.eqb_spec k k') as [->|Hne]; simpl.
  - reflexivity.
  - f_equal. apply IH. destruct H; congruence.
Qed.

Lemma keys_set d k v :
  Dict.keys (Dict.set k v d) =
  if Dict.mem k d then Dict.keys d else Dict.keys d ++ [k].
Proof.
  destruct (Dict.mem k d) eqn:E.
  - apply keys_set_present. now apply mem_true_iff.
  - rewrite set_absent.
    + unfold Dict.keys. now rewrite map_app.
    + intros H. apply mem_true_iff in H. congruence.
Qed.


Lemma In_set d k v k' v' :
  NoDup (Dict.keys d) ->
  In (k', v') (Dict.set k v d) ->
  (k' = k /\ v' = v) \/ (k' <> k /\ In (k', v') d).
Proof.
  induction d as [|[k0 v0] d IH]; simpl.
  - intros _ [[= <- <-]|[]]. now left.
  - intros Hnd. inversion Hnd as [|? ? Hnotin Hnd']; subst.
    destruct (String.eqb_spec k k0) as [->|Hne]; simpl.
    + intros [[= <- <-]|H]; [now left|].
      right. split; [|now right].
      intros ->. apply Hnotin. change k0 with (fst (k0, v')).
      now apply in_map.
    + intros [[= <- <-]|H].
      * right. split; [congruence|now left].
      * destruct (IH Hnd' H) as [?|[? ?]]; [now left|right; split; auto].
Qed.

Lemma get_set d k v k' :
  Dict.get k' (Dict.set k v d) =
  if String.eqb k' k then Some v else Dict.get k' d.
Proof.
  induction d as [|[k0 v0] d IH]; simpl.
  - reflexivity.
  - destruct (String.eqb_spec k k0) as [->|Hne]; simpl.
    + destruct (String.eqb_spec k' k0); reflexivity.
    + rewrite IH. destruct (String.eqb_spec k' k0) as [->|_].
      * destruct (String.eqb_spec k0 k); congruence.
      * reflexivity.
Qed.

Lemma In_pop d k k' v' : In (k', v') (Dict.pop k d) -> In (k', v') d.
Proof.
  induction d as [|[k0 v0] d IH]; simpl; [tauto|].
  destruct (String.eqb_spec k k0) as [->|_]; simpl; intuition.
Qed.

Lemma keys_pop_incl d k x :
  In x (Dict.keys (Dict.pop k d)) -> In x (Dict.keys d).
Proof.
  induction d as [|[k0 v0] d IH]; simpl; [tauto|].
  destruct (String.eqb_spec k k0) as [->|_]; simpl; intuition.
Qed.

Lemma NoDup_keys_pop d k :
  NoDup (Dict.keys d) -> NoDup (Dict.keys (Dict.pop k d)).
Proof.
  induction d as [|[k0 v0] d IH]; simpl; [trivial|].
  intros Hnd. inversion Hnd as [|? ? Hnotin Hnd']; subst.
  destruct (String.eqb_spec k k0) as [->|_]; simpl; [assumption|].
  constructor; [|now apply IH].
  intros H. apply Hnotin. eapply keys_pop_incl, H.
Qed.

Lemma NoDup_keys_set d k v :
  NoDup (Dict.keys d) -> NoDup (Dict.keys (Dict.set k v d)).
Proof.
  intros Hnd. rewrite keys_set. destruct (Dict.mem k d) eqn:E; [assumption|].
  apply NoDup_app; [assumption|repeat constructor; simpl; tauto|].
  intros x Hx [<-|[]]. apply mem_true_iff in Hx. congruence.
Qed.

(** Storing pairs with distinct keys one by one keeps them as they
    come. *)
Lemma fold_set_distinct (pairs : list (string * V)) d :
  NoDup (Dict.keys d ++ map fst pairs) ->
  fold_left (fun acc kv => Dict.set (fst kv) (snd kv) acc) pairs d
  = d ++ pairs.
Proof.
  revert d. induction pairs as [|[k v] pairs IH]; simpl; intros d Hnd.
  - now rewrite app_nil_r.
  - rewrite set_absent.
    + rewrite IH.
      * now rewrite <- app_assoc.
      * unfold Dict.keys in *. rewrite map_app, <- app_assoc. exact Hnd.
    + apply NoDup_remove_2 in Hnd. intros H. apply Hnd.
      apply in_or_app. now left.
Qed.

Lemma of_pairs_distinct (pairs : list (string * V)) :
  NoDup (map fst pairs) -> Dict.of_pairs pairs = pairs.
Proof.
  intros H. unfold Dict.of_pairs. now rewrite fold_set_distinct.
Qed.

End DictFacts.

(** ** [random.shuffle] *)

Section ShuffleFacts.

Context {A : Type}.
Implicit Types (x l : list A) (g : Random.rng).


Lemma list_set_perm l j (a b : A) :
  nth_error l j = Some b ->
  Permutation (b :: Random.list_set j a l) (a :: l).
Proof.
  revert j. induction l as [|c l IH]; intros [|j]; simpl; try discriminate.
  - intros [= ->]. apply perm_swap.
  - intros H. rewrite perm_swap. rewrite (IH _ H). apply perm_swap.
Qed.

Lemma exchange_perm x i j (xi xj : A) :
  nth_error x i = Some xi -> nth_error x j = Some xj ->
  Permutation (Random.list_set j xi (Random.list_set i xj x)) x.
Proof.
  revert i j. induction x as [|a x IH]; intros [|i] [|j]; simpl;
    try discriminate.
  - intros [= ->] _. reflexivity.
  - intros [= ->] H. now apply list_set_perm.
  - intros H [= ->]. now apply list_set_perm.
  - intros Hi Hj. apply perm_skip. now apply IH.
Qed.

Lemma swap_perm i j x : Permutation (Random.swap i j x) x.
Proof.
  unfold Random.swap.
  destruct (nth_error x j) as [xj|] eqn:Ej; [|reflexivity].
  destruct (nth_error x i) as [xi|] eqn:Ei; [|reflexivity].
  now apply exchange_perm.
Qed.

Lemma shuffle_from_perm i g x :
  Permutation (fst (Random.shuffle_from i g x)) x.
Proof.
  revert g x. induction i as [|i IH]; intros g x; simpl.
  - reflexivity.
  - rewrite IH. apply swap_perm.
Qed.

(** [random.shuffle] rearranges its argument and nothing more. *)
Lemma shuffle_perm g x : Permutation (fst (Random.shuffle g x)) x.
Proof. apply shuffle_from_perm. Qed.

Lemma nth_error_middle l1 (b : A) l2 :
  nth_error (l1 ++ b :: l2) (List.length l1) = Some b.
Proof. induction l1; simpl; auto. Qed.

Lemma list_set_middle l1 (a b : A) l2 :
  Random.list_set (List.length l1) a (l1 ++ b :: l2) = l1 ++ a :: l2.
Proof. induction l1; simpl; congruence. Qed.

(** With every draw equal to [0] the loop moves the head behind the
    visited positions. *)
Lemma shuffle_from_zeros l1 (a : A) l2 c :
  fst (Random.shuffle_from (List.length l1) (zeros c) (a :: l1 ++ l2))
  = l1 ++ a :: l2.
Proof.
  revert a l2 c. induction l1 as [|b l1 IH] using rev_ind; intros a l2 c.
  - reflexivity.
  - rewrite length_app, Nat.add_comm. cbn [List.length Nat.add].
    cbn [Random.shuffle_from Random.randbelow zeros Random.draws
         Random.cursor].
    rewrite Nat.Div0.mod_0_l.
    change {| Random.draws := fun _ : nat => 0; Random.cursor := S c |}
      with (zeros (S c)).
    rewrite <- app_assoc. cbn [app].
    unfold Random.swap. cbn [nth_error].
    rewrite nth_error_middle. cbn [Random.list_set].
    rewrite list_set_middle.
    rewrite (IH b (a :: l2) (S c)).
    now rewrite <- app_assoc.
Qed.

Lemma shuffle_zeros (a : A) l c :
  fst (Random.shuffle (zeros c) (a :: l)) = l ++ [a].
Proof.
  unfold Random.shuffle. cbn [List.length]. rewrite Nat.sub_succ, Nat.sub_0_r.
  rewrite <- (app_nil_r l) at 2. apply shuffle_from_zeros.
Qed.

End ShuffleFacts.

(** ** The assignment engine *)

Lemma no_self_pair_spec pairs :
  no_self_pair pairs = true <-> forall k v, In (k, v) pairs -> k <> v.
Proof.
  unfold no_self_pair. rewrite forallb_forall. split.
  - intros H k v Hin. specialize (H _ Hin). simpl in H.
    destruct (String.eqb_spec k v); [discriminate|assumption].
  - intros H [k v] Hin. simpl. specialize (H _ _ Hin).
    destruct (String.eqb_spec k v); [contradiction|reflexivity].
Qed.

(** Pairing a duplicate-free list with itself moved one place to the
    left yields no pair of equal identities. *)
Lemma rotation_no_self_pair l a b :
  NoDup (a :: l) -> ~ In b l -> (l = [] -> a <> b) ->
  no_self_pair (combine (a :: l) (l ++ [b])) = true.
Proof.
  revert a. induction l as [|c l IH]; intros a Hnd Hb Hab.
  - simpl. destruct (String.eqb_spec a b); [now elim Hab|reflexivity].
  - cbn [app combine]. unfold no_self_pair. cbn [forallb fst snd].
    inversion Hnd as [|? ? Hnotin Hnd']; subst.
    destruct (String.eqb_spec a c) as [->|_]; [elim Hnotin; now left|].
    apply IH.
    + assumption.
    + intros H. apply Hb. now right.
    + intros _ ->. apply Hb. now left.
Qed.

(** Whatever the loop returns comes from one shuffle of [ids] that left
    no identity in its place. *)
Lemma build_valid_assignment_accepts fuel g ids m g' :
  build_valid_assignment fuel g ids = Some (m, g') ->
  exists receivers,
    Permutation receivers ids /\
    no_self_pair (combine ids receivers) = true /\
    m = Dict.of_pairs (combine ids receivers).
Proof.
  revert g. induction fuel as [|fuel IH]; intros g; simpl; [discriminate|].
  pose proof (shuffle_perm g ids) as Hperm.
  destruct (Random.shuffle g ids) as [receivers g1]. simpl in Hperm.
  destruct (no_self_pair (combine ids receivers)) eqn:E.
  - intros [= <- <-]. exists receivers. auto.
  - apply IH.
Qed.

(** More fuel never changes a result already reached. *)
Lemma build_valid_assignment_more_fuel fuel extra g ids r :
  build_valid_assignment fuel g ids = Some r ->
  build_valid_assignment (fuel + extra) g ids = Some r.
Proof.
  revert g. induction fuel as [|fuel IH]; intros g; simpl; [discriminate|].
  destruct (Random.shuffle g ids) as [receivers g1].
  destruct (no_self_pair (combine ids receivers)); [trivial|apply IH].
Qed.

(** On two or more distinct identities the first attempt succeeds when
    every draw is [0]. *)
Lemma build_valid_assignment_zeros ids c :
  NoDup ids -> 2 <= List.length ids ->
  exists m g', build_valid_assignment 1 (zeros c) ids = Some (m, g').
Proof.
  intros Hnd Hlen. destruct ids as [|a l]; [simpl in Hlen; lia|].
  cbn [build_valid_assignment]. pose proof (shuffle_zeros a l c) as Hz.
  destruct (Random.shuffle (zeros c) (a :: l)) as [receivers g1].
  cbn [fst] in Hz. subst receivers.
  rewrite rotation_no_self_pair; eauto.
  - now inversion Hnd.
  - intros ->. simpl in Hlen. lia.
Qed.

Lemma combine_fst {B C : Type} (l1 : list B) (l2 : list C) :
  List.length l1 = List.length l2 -> map fst (combine l1 l2) = l1.
Proof.
  revert l2. induction l1 as [|x l1 IH]; intros [|y l2]; simpl;
    try discriminate; auto.
  intros [= H]. f_equal. now apply IH.
Qed.

Lemma combine_snd {B C : Type} (l1 : list B) (l2 : list C) :
  List.length l1 = List.length l2 -> map snd (combine l1 l2) = l2.
Proof.
  revert l2. induction l1 as [|x l1 IH]; intros [|y l2]; simpl;
    try discriminate; auto.
  intros [= H]. f_equal. now apply IH.
Qed.

(** The shape of every result on distinct identities: the keys are
    [ids] in their order, the values a rearrangement of [ids]. *)
Lemma build_valid_assignment_shape fuel g ids m g' :
  NoDup ids ->
  build_valid_assignment fuel g ids = Some (m, g') ->
  Dict.keys m = ids /\ Permutation (Dict.values m) ids /\
  (forall k v, In (k, v) m -> k <> v).
Proof.
  intros Hnd H. apply build_valid_assignment_accepts in H.
  destruct H as (receivers & Hperm & Hself & ->).
  pose proof (Permutation_length Hperm) as Hlen. symmetry in Hlen.
  rewrite of_pairs_distinct by (rewrite combine_fst; assumption).
  unfold Dict.keys, Dict.values. rewrite combine_fst, combine_snd by assumption.
  repeat split; [assumption|]. now apply no_self_pair_spec.
Qed.

(** C1. For every list [ids] of two or more distinct identities, each
    assignment [build_valid_assignment] returns is a bijection on [ids]
    without a fixed point: every identity is a key exactly once and a
    value exactly once, every pair relates two identities of [ids], and
    no identity is paired with itself. The loop does return such an
    assignment for some sequence of draws. *)
Theorem build_valid_assignment_derangement (ids : list string) :
  NoDup ids -> 2 <= List.length ids ->
  (forall fuel g m g',
      build_valid_assignment fuel g ids = Some (m, g') ->
      derangement_of ids m) /\
  (exists fuel g m g', build_valid_assignment fuel g ids = Some (m, g')).
Proof.
  intros Hnd Hlen. split.
  - intros fuel g m g' H.
    destruct (build_valid_assignment_shape _ _ Hnd H) as (Hk & Hv & Hself).
    split.
    + intros x Hx. rewrite Hk.
      rewrite (Permutation_count_occ string_dec) in Hv. rewrite Hv.
      split; apply NoDup_count_occ'; assumption.
    + intros k v Hin. repeat split.
      * rewrite <- Hk. change k with (fst (k, v)). now apply in_map.
      * apply (Permutation_in _ Hv). change v with (snd (k, v)).
        now apply in_map.
      * now apply Hself.
  - destruct (build_valid_assignment_zeros 0 Hnd Hlen) as (m & g' & H).
    now exists 1, (zeros 0), m, g'.
Qed.

Lemma build_valid_assignment_derangement_witness :
  (forall fuel g m g',
      build_valid_assignment fuel g ["u1"; "u2"; "u3"] = Some (m, g') ->
      derangement_of ["u1"; "u2"; "u3"] m) /\
  (exists fuel g m g',
      build_valid_assignment fuel g ["u1"; "u2"; "u3"] = Some (m, g')).
Proof.
  apply (@build_valid_assignment_derangement ["u1"; "u2"; "u3"]).
  - repeat constructor; simpl; intuition discriminate.
  - simpl. lia.
Defined.

(** ** The example group *)

Lemma two_joined_run :
  run [ Join {| ParticipantIn.name := "Alice";
                ParticipantIn.giftPreference := None |} "u1";
        Join {| ParticipantIn.name := " Bob ";
                ParticipantIn.giftPreference := Some " socks " |} "u2" ]
      (fresh "santaadmin" (zeros 0))
  = Some two_joined.
Proof. reflexivity. Qed.

Lemma two_shuffled_run :
  final_state (shuffle 1 (Some "santaadmin") two_joined) = Some two_shuffled.
Proof. reflexivity. Qed.

Lemma run_reachable rs s s' : reachable s -> run rs s = Some s' -> reachable s'.
Proof.
  revert s. induction rs as [|r rs IH]; simpl; intros s Hs.
  - now intros [= <-].
  - destruct (final_state (handle r s)) as [s1|] eqn:E; [|discriminate].
    apply IH. eapply reach_handle; eauto.
Qed.

Lemma two_joined_reachable : reachable two_joined.
Proof.
  eapply run_reachable; [apply reach_fresh|apply two_joined_run].
Qed.

Lemma two_shuffled_reachable : reachable two_shuffled.
Proof.
  apply (@reach_handle two_joined (Shuffle (Some "santaadmin") 1)).
  - apply two_joined_reachable.
  - apply two_shuffled_run.
Qed.

(** ** Persistence *)

Lemma Participant_of_model_dump p : Participant_of_item (model_dump p) = Some p.
Proof. now destruct p. Qed.

Lemma keys_app {V : Type} (d1 d2 : Dict.t V) :
  Dict.keys (d1 ++ d2) = Dict.keys d1 ++ Dict.keys d2.
Proof. apply map_app. Qed.

(** Reading back the dumped records of a registry rebuilds it entry by
    entry, behind whatever was loaded before. *)
Lemma load_participants_dump d acc :
  NoDup (Dict.keys acc ++ Dict.keys d) ->
  Forall (fun kp => id (snd kp) = fst kp) d ->
  load_participants (map model_dump (Dict.values d)) acc = Some (acc ++ d).
Proof.
  revert acc. induction d as [|[k p] d IH]; intros acc Hnd Hid.
  - simpl. now rewrite app_nil_r.
  - inversion Hid as [|? ? Hk Hid']; subst. simpl in Hk. subst k.
    cbn [Dict.values map load_participants snd].
    change (Dict.mem "id" (model_dump p) && Dict.mem "name" (model_dump p))
      with true. cbv iota.
    rewrite Participant_of_model_dump.
    change (Dict.get "id" (model_dump p)) with (Some (Some (id p))).
    cbv iota.
    rewrite set_absent.
    + change (map snd d) with (Dict.values d). rewrite IH.
      * now rewrite <- app_assoc.
      * rewrite keys_app, <- app_assoc. exact Hnd.
      * assumption.
    + apply NoDup_remove_2 in Hnd. intros H. apply Hnd.
      apply in_or_app. now left.
Qed.

Lemma load_participants_payload d :
  registry_wf d ->
  load_participants (map model_dump (Dict.values d)) Dict.empty = Some d.
Proof.
  intros [Hnd Hid]. now rewrite load_participants_dump.
Qed.

(** Loading what [save_data] wrote gives the registry back, provided the
    flag in memory already accounts for the assignments. *)
Lemma load_saved s0 s :
  registry_wf (participants s) ->
  (shuffled s = false -> any_assigned (participants s) = false) ->
  DATA_FILE s0 = Some (payload s) ->
  load_data s0 = Returns tt (with_registry (participants s) (shuffled s) s0).
Proof.
  intros Hwf Hgate Hfile. unfold load_data. rewrite Hfile.
  cbn [payload stored_items stored_flag snap_participants snap_shuffled].
  rewrite load_participants_payload by assumption.
  destruct (shuffled s) eqn:E; [reflexivity|].
  now rewrite Hgate.
Qed.

Lemma load_participants_loadable l acc :
  forallb loadable l = true <-> exists d, load_participants l acc = Some d.
Proof.
  revert acc. induction l as [|it l IH]; intros acc.
  - simpl. split; eauto.
  - cbn [forallb load_participants]. unfold loadable at 1.
    unfold Participant_of_item.
    destruct (Dict.mem "id" it && Dict.mem "name" it).
    + destruct (Dict.get "id" it) as [[i|]|];
        try (split; [discriminate|intros [d Hd]; discriminate]).
      destruct (Dict.get "name" it) as [[n|]|];
        try (split; [discriminate|intros [d Hd]; discriminate]).
      cbn [andb]. apply IH.
    + cbn [andb]. apply IH.
Qed.

(** ** The assignment loop of [shuffle] *)

Lemma get_middle {V : Type} (d1 d2 : Dict.t V) k v :
  ~ In k (Dict.keys d1) -> Dict.get k (d1 ++ (k, v) :: d2) = Some v.
Proof.
  induction d1 as [|[k1 v1] d1 IH]; simpl; intros H.
  - now rewrite String.eqb_refl.
  - destruct (String.eqb_spec k k1) as [->|_]; [tauto|]. apply IH. tauto.
Qed.

Lemma set_middle {V : Type} (d1 d2 : Dict.t V) k v w :
  ~ In k (Dict.keys d1) ->
  Dict.set k w (d1 ++ (k, v) :: d2) = d1 ++ (k, w) :: d2.
Proof.
  induction d1 as [|[k1 v1] d1 IH]; simpl; intros H.
  - now rewrite String.eqb_refl.
  - destruct (String.eqb_spec k k1) as [->|_]; [tauto|].
    f_equal. apply IH. tauto.
Qed.

Lemma get_Some_of_key {V : Type} (d : Dict.t V) k :
  In k (Dict.keys d) -> exists v, Dict.get k d = Some v.
Proof.
  intros H. destruct (Dict.get k d) as [v|] eqn:E; [eauto|].
  now apply get_None_iff in E.
Qed.

(** On the pairs of the registry's keys with as many receivers, the
    loop raises no [KeyError] and writes the receivers in order. *)
Lemma assign_all_along done todo receivers :
  NoDup (Dict.keys (done ++ todo)) ->
  List.length receivers = List.length todo ->
  assign_all (combine (Dict.keys todo) receivers) (done ++ todo)
  = (done ++ assigned_along todo receivers, true).
Proof.
  revert done receivers.
  induction todo as [|[k p] todo IH]; intros done [|r receivers] Hnd Hlen;
    try discriminate.
  - reflexivity.
  - cbn [Dict.keys map fst combine assign_all assigned_along].
    assert (Hk : ~ In k (Dict.keys done)).
    { rewrite keys_app in Hnd. apply NoDup_remove_2 in Hnd.
      intros H. apply Hnd. apply in_or_app. now left. }
    rewrite get_middle, set_middle by assumption.
    change (done ++ (k, set_assignedTo p (Some r)) :: todo)
      with (done ++ [(k, set_assignedTo p (Some r))] ++ todo).
    rewrite app_assoc. change (map fst todo) with (Dict.keys todo).
    rewrite IH.
    + now rewrite <- app_assoc.
    + rewrite <- app_assoc. rewrite keys_app in *. exact Hnd.
    + simpl in Hlen. congruence.
Qed.

Lemma keys_assigned_along d receivers :
  Dict.keys (assigned_along d receivers) = Dict.keys d.
Proof.
  revert receivers. induction d as [|[k p] d IH]; intros [|r receivers];
    simpl; try reflexivity.
  f_equal. apply IH.
Qed.

Lemma length_assigned_along d receivers :
  List.length (assigned_along d receivers) = List.length d.
Proof.
  rewrite <- (length_map fst), <- (length_map fst d).
  f_equal. apply keys_assigned_along.
Qed.

Lemma In_assigned_along d receivers k p' :
  List.length receivers = List.length d ->
  In (k, p') (assigned_along d receivers) ->
  exists p r,
    In (k, p) d /\ In (k, r) (combine (Dict.keys d) receivers) /\
    p' = set_assignedTo p (Some r).
Proof.
  revert receivers. induction d as [|[k0 p0] d IH]; intros [|r receivers];
    simpl; try discriminate; try tauto.
  intros [= Hlen] [[= <- <-]|Hin].
  - exists p0, r. auto.
  - destruct (IH _ Hlen Hin) as (p & r' & ? & ? & ?).
    exists p, r'. auto.
Qed.

Lemma assignments_for_admin_total items (d : Dict.t Participant) :
  (forall g r, In (g, r) items ->
     In g (Dict.keys d) /\ In r (Dict.keys d)) ->
  exists l, assignments_for_admin items d = Some l.
Proof.
  induction items as [|[g r] items IH]; intros H; simpl.
  - eauto.
  - destruct (H g r (or_introl eq_refl)) as [Hg Hr].
    destruct (get_Some_of_key _ _ Hg) as [pg ->].
    destruct (get_Some_of_key _ _ Hr) as [pr ->].
    destruct IH as [l ->]; [intros; apply H; now right|]. eauto.
Qed.

(** What a shuffle does that passes the check of the admin secret on an
    open registry of two or more:
    it hangs as long as the engine does, and otherwise returns with
    every participant assigned along one accepted draw, the gate closed
    and the file written. *)
Lemma shuffle_open fuel secret s :
  registry_wf (participants s) ->
  require_admin secret s = true -> shuffled s = false ->
  2 <= List.length (participants s) ->
  (shuffle fuel secret s = Diverges /\
   build_valid_assignment fuel (random_state s) (Dict.keys (participants s))
   = None) \/
  (exists receivers g l,
     Permutation receivers (Dict.keys (participants s)) /\
     no_self_pair (combine (Dict.keys (participants s)) receivers) = true /\
     shuffle fuel secret s =
     Returns (ShuffleReady l)
       (save_data
          (with_random g
             (with_registry (assigned_along (participants s) receivers)
                true s)))).
Proof.
  intros [Hnd Hid] Hadm Hopen Hlen. unfold shuffle.
  rewrite Hadm, Hopen. cbn [negb].
  destruct (Nat.ltb_spec (List.length (participants s)) 2) as [?|_]; [lia|].
  destruct (build_valid_assignment fuel (random_state s)
              (Dict.keys (participants s))) as [[m g]|] eqn:E; [|now left].
  right.
  destruct (build_valid_assignment_accepts _ _ _ E)
    as (receivers & Hperm & Hself & ->).
  assert (Hl : List.length receivers = List.length (participants s)).
  { rewrite (Permutation_length Hperm). apply length_map. }
  rewrite of_pairs_distinct
    by (rewrite combine_fst;
        [assumption|unfold Dict.keys; rewrite length_map; congruence]).
  pose proof (@assign_all_along [] (participants s) receivers Hnd Hl) as Ha.
  cbn [app] in Ha. rewrite Ha.
  cbn [save_data participants with_random with_registry].
  destruct (@assignments_for_admin_total
              (combine (Dict.keys (participants s)) receivers)
              (assigned_along (participants s) receivers)) as [l Hl'].
  { intros k r Hin. rewrite keys_assigned_along. split.
    - eapply in_combine_l, Hin.
    - apply (Permutation_in _ Hperm). eapply in_combine_r, Hin. }
  rewrite Hl'. exists receivers, g, l. auto.
Qed.

(** ** The invariant of the reachable states *)

Lemma any_assigned_false_iff d :
  any_assigned d = false <-> forall k p, In (k, p) d -> assignedTo p = None.
Proof.
  unfold any_assigned, Dict.values. split.
  - intros H k p Hin. destruct (assignedTo p) as [r|] eqn:E; [|reflexivity].
    assert (existsb
              (fun q => match assignedTo q with Some _ => true | None => false end)
              (map snd d) = true) as Ht; [|congruence].
    apply existsb_exists. exists p. split.
    + change p with (snd (k, p)). now apply in_map.
    + now rewrite E.
  - intros H. destruct (existsb _ _) eqn:E; [|reflexivity].
    apply existsb_exists in E. destruct E as (p & Hin & Hp).
    apply in_map_iff in Hin. destruct Hin as ([k q] & <- & Hin).
    simpl in Hp. now rewrite (H _ _ Hin) in Hp.
Qed.

Lemma unassigned_assigned_ok d : any_assigned d = false -> assigned_ok d.
Proof.
  intros H k p r Hin Hr. rewrite any_assigned_false_iff in H.
  rewrite (H _ _ Hin) in Hr. discriminate.
Qed.

Lemma Forall_set {V : Type} (P : string * V -> Prop) (d : Dict.t V) k v :
  Forall P d -> P (k, v) -> Forall P (Dict.set k v d).
Proof.
  intros Hd Hkv. induction Hd as [|[k0 v0] d H0 Hd IH]; simpl.
  - auto.
  - destruct (String.eqb_spec k k0) as [->|_]; constructor; auto.
Qed.

(** The effect of each handler. *)

Lemma add_participant_effect participant_in uuid4 s s' :
  consistent s ->
  final_state (add_participant participant_in uuid4 s) = Some s' ->
  effect s s'.
Proof.
  intros [[Hnd Hid] Hun]. unfold add_participant.
  destruct (ParticipantIn.valid participant_in); cbn [negb];
    [|intros [= <-]; now apply effect_none].
  destruct (shuffled s) eqn:Hopen; [intros [= <-]; now apply effect_none|].
  intros [= <-]. specialize (Hun eq_refl).
  apply effect_membership; try reflexivity; try assumption;
    cbn [save_data with_participants with_registry participants].
  - split; [now apply NoDup_keys_set|now apply Forall_set].
  - apply any_assigned_false_iff. intros k q Hin.
    apply In_set in Hin; [|assumption].
    destruct Hin as [[_ ->]|[_ Hin]]; [reflexivity|].
    rewrite any_assigned_false_iff in Hun. eapply Hun, Hin.
Qed.

Lemma remove_participant_effect participant_id secret s s' :
  consistent s ->
  final_state (remove_participant participant_id secret s) = Some s' ->
  effect s s'.
Proof.
  intros [[Hnd Hid] Hun]. unfold remove_participant.
  destruct (require_admin secret s); cbn [negb];
    [|intros [= <-]; now apply effect_none].
  destruct (shuffled s) eqn:Hopen; [intros [= <-]; now apply effect_none|].
  destruct (Dict.mem participant_id (participants s)); cbn [negb];
    [|intros [= <-]; now apply effect_none].
  intros [= <-]. specialize (Hun eq_refl).
  apply effect_membership; try reflexivity; try assumption;
    cbn [save_data with_participants with_registry participants].
  - split; [now apply NoDup_keys_pop|].
    rewrite Forall_forall in *. intros [k q] Hin. apply Hid.
    eapply In_pop, Hin.
  - apply any_assigned_false_iff. intros k q Hin. apply In_pop in Hin.
    rewrite any_assigned_false_iff in Hun. eapply Hun, Hin.
Qed.

(** The registry a successful shuffle leaves satisfies the invariant on
    [assignedTo]. *)
Lemma assigned_along_ok d receivers :
  registry_wf d ->
  Permutation receivers (Dict.keys d) ->
  no_self_pair (combine (Dict.keys d) receivers) = true ->
  registry_wf (assigned_along d receivers) /\
  assigned_ok (assigned_along d receivers).
Proof.
  intros [Hnd Hid] Hperm Hself.
  assert (Hlen : List.length receivers = List.length d).
  { rewrite (Permutation_length Hperm). apply length_map. }
  rewrite Forall_forall in Hid. split; [split|].
  - now rewrite keys_assigned_along.
  - apply Forall_forall. intros [k p'] Hin.
    destruct (In_assigned_along _ _ _ _ Hlen Hin) as (p & r & Hp & _ & ->).
    exact (Hid _ Hp).
  - intros k p' r Hin Hr.
    destruct (In_assigned_along _ _ _ _ Hlen Hin) as (q & r' & Hq & Hc & ->).
    simpl in Hr. injection Hr as ->.
    rewrite no_self_pair_spec in Hself. specialize (Hself _ _ Hc).
    specialize (Hid _ Hq). simpl in Hid. cbn [set_assignedTo id].
    rewrite keys_assigned_along. repeat split.
    + apply (Permutation_in _ Hperm). eapply in_combine_r, Hc.
    + congruence.
    + congruence.
Qed.

Lemma shuffle_effect fuel secret s s' :
  consistent s ->
  final_state (shuffle fuel secret s) = Some s' ->
  effect s s'.
Proof.
  intros [Hwf _].
  destruct (require_admin secret s) eqn:Hadm.
  2:{ unfold shuffle. rewrite Hadm. intros [= <-]. now apply effect_none. }
  destruct (shuffled s) eqn:Hopen.
  { unfold shuffle. rewrite Hadm, Hopen. intros [= <-]. now apply effect_none. }
  destruct (Nat.ltb_spec (List.length (participants s)) 2) as [Hlt|Hge].
  { unfold shuffle. rewrite Hadm, Hopen.
    apply Nat.ltb_lt in Hlt. rewrite Hlt. intros [= <-].
    now apply effect_none. }
  destruct (@shuffle_open fuel secret s Hwf Hadm Hopen Hge)
    as [[-> _]|(receivers & g & l & Hperm & Hself & ->)]; [discriminate|].
  intros [= <-].
  destruct (assigned_along_ok Hwf Hperm Hself) as [Hwf' Hok'].
  apply effect_shuffle; try reflexivity; try assumption.
  cbn [save_data with_random with_registry participants].
  now rewrite length_assigned_along.
Qed.

Lemma get_assignment_state participant_id s :
  final_state (get_assignment participant_id s) = Some s.
Proof.
  unfold get_assignment.
  destruct (Dict.get participant_id (participants s)) as [p|]; [|reflexivity].
  destruct (assignedTo p) as [r|]; [|reflexivity].
  destruct (PyStr.truthy r); [|reflexivity].
  destruct (Dict.get r (participants s)); reflexivity.
Qed.

Lemma list_participants_state secret s :
  final_state (list_participants secret s) = Some s.
Proof.
  unfold list_participants. destruct (require_admin secret s); reflexivity.
Qed.

Lemma handle_effect r s s' :
  consistent s -> final_state (handle r s) = Some s' -> effect s s'.
Proof.
  destruct r as [participant_in uuid4|secret|participant_id secret
                |secret fuel|participant_id]; cbn [handle]; intros Hc.
  - now apply add_participant_effect.
  - rewrite list_participants_state. intros [= <-]. now apply effect_none.
  - now apply remove_participant_effect.
  - now apply shuffle_effect.
  - rewrite get_assignment_state. intros [= <-]. now apply effect_none.
Qed.

(** Every running service is consistent. *)

Lemma load_participants_wf l acc d :
  registry_wf acc -> load_participants l acc = Some d -> registry_wf d.
Proof.
  revert acc. induction l as [|it l IH]; intros acc Hacc; simpl.
  - now intros [= <-].
  - destruct (Dict.mem "id" it && Dict.mem "name" it); [|now apply IH].
    unfold Participant_of_item.
    destruct (Dict.get "id" it) as [[i|]|]; try discriminate.
    destruct (Dict.get "name" it) as [[n|]|]; try discriminate.
    apply IH. destruct Hacc as [Hnd Hid]. split.
    + now apply NoDup_keys_set.
    + now apply Forall_set.
Qed.

Lemma boot_consistent secret file g s :
  boot secret file g = Returns tt s -> consistent s.
Proof.
  unfold boot, load_data. cbn [DATA_FILE]. destruct file as [raw|].
  - destruct (load_participants _ _) as [d|] eqn:E; [|discriminate].
    intros [= <-]. cbn [with_registry]. split; cbn [participants shuffled].
    + eapply load_participants_wf; [|exact E]. split; constructor.
    + intros H. now apply orb_false_iff in H.
  - intros [= <-]. split; simpl; [split; constructor|reflexivity].
Qed.

Lemma effect_consistent s s' : consistent s -> effect s s' -> consistent s'.
Proof.
  intros Hc [->|_ _ Hwf Hun _|_ Hclosed _ Hwf _ _].
  - assumption.
  - now split.
  - split; [assumption|]. congruence.
Qed.

Lemma running_consistent s : running s -> consistent s.
Proof.
  induction 1 as [secret file g s Hboot|s r s' _ IH Hstep].
  - eapply boot_consistent, Hboot.
  - eapply effect_consistent; [exact IH|]. eapply handle_effect; eauto.
Qed.

(** Every state reached from a fresh installation satisfies the
    invariant. *)

Lemma invariant_fresh secret g : invariant (fresh secret g).
Proof.
  unfold invariant, consistent, registry_wf. simpl.
  split; [split; [split; constructor|reflexivity]|].
  split; [intros k p r []|].
  split; [discriminate|].
  right. auto.
Qed.

Lemma effect_invariant s s' : invariant s -> effect s s' -> invariant s'.
Proof.
  intros (Hc & Hok & Htwo & Hfile) He.
  pose proof (effect_consistent Hc He) as Hc'.
  destruct He as [->|_ Hopen _ Hun Hf|_ _ Hlen _ Hok' Hf].
  - exact (conj Hc (conj Hok (conj Htwo Hfile))).
  - split; [assumption|]. split; [now apply unassigned_assigned_ok|].
    split; [congruence|]. now left.
  - split; [assumption|]. split; [assumption|].
    split; [auto|]. now left.
Qed.

Lemma boot_invariant s secret g s' :
  invariant s -> boot secret (DATA_FILE s) g = Returns tt s' -> invariant s'.
Proof.
  intros ((Hwf & Hun) & Hok & Htwo & [Hfile|(Hfile & Hd & Hb)]).
  - unfold boot. erewrite load_saved; eauto.
    intros [= <-]. unfold invariant, consistent.
    cbn [with_registry participants shuffled].
    split; [now split|]. split; [assumption|]. split; [assumption|].
    now left.
  - unfold boot, load_data. cbn [DATA_FILE]. rewrite Hfile.
    intros [= <-]. apply (invariant_fresh secret g).
Qed.

Theorem reachable_invariant s : reachable s -> invariant s.
Proof.
  induction 1 as [secret g|s r s' _ IH Hstep|s secret g s' _ IH Hboot].
  - apply invariant_fresh.
  - eapply effect_invariant; [exact IH|].
    eapply handle_effect; [apply IH|exact Hstep].
  - eapply boot_invariant; eauto.
Qed.

Lemma reachable_running s : reachable s -> running s.
Proof.
  induction 1 as [secret g|s r s' _ IH Hstep|s secret g s' _ IH Hboot].
  - now apply (@running_boot secret None g).
  - eapply running_handle; eauto.
  - eapply running_boot; eauto.
Qed.

(** The snapshot without its flag loads as closed. *)
Lemma flag_lost_loads_closed :
  load_data flag_lost
  = Returns tt (with_registry (participants two_shuffled) true flag_lost).
Proof. reflexivity. Qed.

(** ** Round trip through the data file *)

(** C5. For every state of a running service, whatever data file it
    was started on, writing the snapshot with [save_data] and loading
    it, in a new process or in place, rebuilds the registry: the same
    entries (identity, name, gift preference and [assignedTo]) in the
    same order, and the same [shuffled] flag. *)
Theorem save_load_roundtrip (s : state) :
  running s ->
  forall secret g,
    (exists s',
        boot secret (DATA_FILE (save_data s)) g = Returns tt s' /\
        participants s' = participants s /\
        shuffled s' = shuffled s) /\
    load_data (save_data s) = Returns tt (save_data s).
Proof.
  intros Hs secret g. apply running_consistent in Hs.
  destruct Hs as (Hwf & Hun). split.
  - eexists. split; [|split].
    + unfold boot. apply (@load_saved _ s); auto.
    + reflexivity.
    + reflexivity.
  - rewrite (@load_saved _ s); auto.
Qed.

Lemma save_load_roundtrip_witness :
  (exists s',
      boot "santaadmin" (DATA_FILE (save_data two_shuffled)) (zeros 0)
      = Returns tt s' /\
      participants s' = participants two_shuffled /\
      shuffled s' = shuffled two_shuffled) /\
  load_data (save_data two_shuffled) = Returns tt (save_data two_shuffled).
Proof.
  apply (@save_load_roundtrip two_shuffled
           (reachable_running two_shuffled_reachable)
           "santaadmin" (zeros 0)).
Defined.

(** ** The invariant on [assignedTo] *)

(** C3. Every request (join, list, remove, shuffle, get assignment)
    preserves the invariant that each [assignedTo] that is set names a
    key of the registry other than its owner's identity: if it holds in
    a state of a running service, it holds in the state the request
    leaves. It holds in every state reached from a fresh installation. *)
Theorem assigned_to_invariant (s : state) :
  running s ->
  (assigned_ok (participants s) ->
   forall r s',
     final_state (handle r s) = Some s' -> assigned_ok (participants s')) /\
  (reachable s -> assigned_ok (participants s)).
Proof.
  intros Hs. split.
  - intros Hok r s' Hstep. apply running_consistent in Hs.
    destruct (handle_effect r Hs Hstep) as [->|_ _ _ Hun _|_ _ _ _ Hok' _].
    + assumption.
    + now apply unassigned_assigned_ok.
    + assumption.
  - intros Hr. apply reachable_invariant in Hr. apply Hr.
Qed.

Lemma assigned_to_invariant_witness :
  (assigned_ok (participants two_joined) ->
   forall r s',
     final_state (handle r two_joined) = Some s' ->
     assigned_ok (participants s')) /\
  (reachable two_joined -> assigned_ok (participants two_joined)).
Proof.
  apply (@assigned_to_invariant two_joined).
  apply reachable_running, two_joined_reachable.
Defined.

(** ** The gate *)

Lemma closed_handle r s : shuffled s = true -> final_state (handle r s) = Some s.
Proof.
  intros Hc.
  destruct r as [participant_in uuid4|secret|participant_id secret
                |secret fuel|participant_id]; cbn [handle].
  - unfold add_participant. rewrite Hc.
    destruct (ParticipantIn.valid participant_in); reflexivity.
  - apply list_participants_state.
  - unfold remove_participant. rewrite Hc.
    destruct (require_admin secret s); reflexivity.
  - unfold shuffle. rewrite Hc. destruct (require_admin secret s); reflexivity.
  - apply get_assignment_state.
Qed.

Lemma closed_run rs s : shuffled s = true -> run rs s = Some s.
Proof.
  intros Hc. induction rs as [|r rs IH]; simpl; [reflexivity|].
  now rewrite closed_handle.
Qed.

Lemma shuffle_returns_closed fuel secret s resp s1 :
  shuffle fuel secret s = Returns resp s1 -> shuffled s1 = true.
Proof.
  unfold shuffle.
  destruct (require_admin secret s); cbn [negb]; [|discriminate].
  destruct (shuffled s); [discriminate|].
  destruct (List.length (participants s) <? 2)%nat; [discriminate|].
  destruct (build_valid_assignment _ _ _) as [[m g]|]; [|discriminate].
  destruct (assign_all m (participants s)) as [d [|]]; [|discriminate].
  destruct (assignments_for_admin _ _); [|discriminate].
  now intros [= _ <-].
Qed.

Lemma shuffle_closed fuel secret s :
  shuffled s = true ->
  shuffle fuel secret s =
  Raises (if require_admin secret s then AlreadyShuffled else Forbidden) s.
Proof.
  intros Hc. unfold shuffle. rewrite Hc.
  destruct (require_admin secret s); reflexivity.
Qed.

(** C2. After a shuffle that succeeded, whatever requests follow leave
    the state as that shuffle left it, and every further shuffle request
    raises and changes nothing, so each [assignedTo] keeps the value the
    successful shuffle gave it; the error is the one saying that the
    shuffle already took place, whenever the request passes the check of
    the admin secret. *)
Theorem shuffle_only_once (s : state) (fuel : nat) (secret : option string)
    (resp : response) (s1 : state) :
  shuffle fuel secret s = Returns resp s1 ->
  forall later fuel' secret',
    run later s1 = Some s1 /\
    (exists e, shuffle fuel' secret' s1 = Raises e s1) /\
    (require_admin secret' s1 = true ->
     shuffle fuel' secret' s1 = Raises AlreadyShuffled s1).
Proof.
  intros H later fuel' secret'. apply shuffle_returns_closed in H.
  split; [|split].
  - now apply closed_run.
  - eexists. now apply shuffle_closed.
  - intros Hadm. rewrite shuffle_closed by assumption. now rewrite Hadm.
Qed.

Lemma shuffle_only_once_witness :
  run [ Join {| ParticipantIn.name := "Carol";
                ParticipantIn.giftPreference := None |} "u3";
        Remove "u1" (Some "santaadmin");
        GetAssignment "u2" ] two_shuffled = Some two_shuffled /\
  (exists e,
      shuffle 5 (Some "santaadmin") two_shuffled = Raises e two_shuffled) /\
  (require_admin (Some "santaadmin") two_shuffled = true ->
   shuffle 5 (Some "santaadmin") two_shuffled
   = Raises AlreadyShuffled two_shuffled).
Proof.
  apply (@shuffle_only_once two_joined 1 (Some "santaadmin")
           (ShuffleReady [("Alice", "Bob"); ("Bob", "Alice")]) two_shuffled).
  reflexivity.
Defined.

(** Below two participants, [shuffle] raises before the engine is
    called: the result does not depend on the fuel, not even on there
    being any, and the state, generator included, is untouched. *)
Lemma shuffle_below_two fuel secret s :
  List.length (participants s) < 2 ->
  shuffle fuel secret s =
  Raises (if require_admin secret s
          then if shuffled s then AlreadyShuffled else InsufficientParticipants
          else Forbidden) s.
Proof.
  intros Hlt. unfold shuffle. apply Nat.ltb_lt in Hlt. rewrite Hlt.
  destruct (require_admin secret s); [|reflexivity].
  destruct (shuffled s); reflexivity.
Qed.

(** Without fuel, [shuffle] hangs exactly when it gets as far as the
    engine. *)
Lemma shuffle_reaches_engine secret s :
  shuffle 0 secret s = Diverges <->
  require_admin secret s = true /\ shuffled s = false /\
  2 <= List.length (participants s).
Proof.
  unfold shuffle.
  destruct (require_admin secret s); cbn [negb];
    [|split; [discriminate|intros (? & _); discriminate]].
  destruct (shuffled s);
    [split; [discriminate|intros (_ & ? & _); discriminate]|].
  destruct (Nat.ltb_spec (List.length (participants s)) 2).
  - split; [discriminate|]. intros (_ & _ & ?). lia.
  - cbn [build_valid_assignment]. split; auto.
Qed.

(** ** Removal *)

(** C6, as stated, fails: after the shuffle of the example group a
    remove request with the admin secret for an identity that is not in
    the registry is rejected because the gate is closed, not with the
    error for an unknown identity. *)
Lemma remove_unknown_after_shuffle :
  final_state (shuffle 1 (Some "santaadmin") two_joined) = Some two_shuffled /\
  Dict.mem "nobody" (participants two_shuffled) = false /\
  remove_participant "nobody" (Some "santaadmin") two_shuffled
  = Raises AlreadyClosed_remove two_shuffled /\
  remove_participant "nobody" (Some "santaadmin") two_shuffled
  <> Raises NotFound two_shuffled.
Proof.
  split; [reflexivity|]. split; [reflexivity|]. split; [reflexivity|].
  discriminate.
Qed.

(** C6, amended. A remove request that passes the check of the admin
    secret is rejected with the closed-gate error in the state a
    successful shuffle leaves, whether or not the identity is registered;
    while the gate is open it is rejected with the not-found error when
    the identity is not in the registry. In both cases nothing changes. *)
Theorem remove_participant_errors (participant_id : string)
    (secret : option string) :
  (forall s0 fuel secret0 resp s,
      shuffle fuel secret0 s0 = Returns resp s ->
      require_admin secret s = true ->
      remove_participant participant_id secret s
      = Raises AlreadyClosed_remove s) /\
  (forall s,
      shuffled s = false ->
      require_admin secret s = true ->
      Dict.mem participant_id (participants s) = false ->
      remove_participant participant_id secret s = Raises NotFound s).
Proof.
  split.
  - intros s0 fuel secret0 resp s H Hadm. apply shuffle_returns_closed in H.
    unfold remove_participant. now rewrite Hadm, H.
  - intros s Hopen Hadm Hmem. unfold remove_participant.
    now rewrite Hadm, Hopen, Hmem.
Qed.

Lemma remove_participant_errors_witness :
  remove_participant "u1" (Some "santaadmin") two_shuffled
  = Raises AlreadyClosed_remove two_shuffled /\
  remove_participant "u3" (Some "santaadmin") two_joined
  = Raises NotFound two_joined.
Proof.
  destruct (remove_participant_errors "u1" (Some "santaadmin")) as [Hclosed _].
  destruct (remove_participant_errors "u3" (Some "santaadmin")) as [_ Hopen].
  split.
  - apply (Hclosed two_joined 1 (Some "santaadmin")
             (ShuffleReady [("Alice", "Bob"); ("Bob", "Alice")]) two_shuffled);
      reflexivity.
  - apply (Hopen two_joined); reflexivity.
Defined.

(** ** Looking up an assignment *)

(** C7. [get_assignment] raises the not-found error for an identity
    that is not in the registry and the not-ready error for a registered
    one whose [assignedTo] is unset; it returns as soon as the assigned
    identity is non-empty and registered; and whatever it returns is the
    object with the two keys ["name"] and ["giftPreference"] holding the
    name and the gift preference of the participant registered under
    the requester's [assignedTo], with the state left as it was. *)
Theorem get_assignment_contract (participant_id : string) (s : state) :
  (Dict.mem participant_id (participants s) = false ->
   get_assignment participant_id s = Raises NotFound s) /\
  (forall p,
      Dict.get participant_id (participants s) = Some p ->
      assignedTo p = None ->
      get_assignment participant_id s = Raises NotReady s) /\
  (forall p receiver_id receiver,
      Dict.get participant_id (participants s) = Some p ->
      assignedTo p = Some receiver_id ->
      PyStr.truthy receiver_id = true ->
      Dict.get receiver_id (participants s) = Some receiver ->
      get_assignment participant_id s
      = Returns (Assignment [ ("name", Some (name receiver));
                              ("giftPreference", giftPreference receiver) ])
                s) /\
  (forall resp s',
      get_assignment participant_id s = Returns resp s' ->
      s' = s /\
      exists p receiver_id receiver,
        Dict.get participant_id (participants s) = Some p /\
        assignedTo p = Some receiver_id /\
        Dict.get receiver_id (participants s) = Some receiver /\
        resp = Assignment [ ("name", Some (name receiver));
                            ("giftPreference", giftPreference receiver) ]).
Proof.
  unfold get_assignment, Dict.mem. split; [|split; [|split]].
  - destruct (Dict.get participant_id (participants s)); [discriminate|].
    reflexivity.
  - intros p -> ->. reflexivity.
  - intros p receiver_id receiver -> -> -> ->. reflexivity.
  - intros resp s'.
    destruct (Dict.get participant_id (participants s)) as [p|] eqn:Ep;
      [|discriminate].
    destruct (assignedTo p) as [r|] eqn:Er; [|discriminate].
    destruct (PyStr.truthy r); [|discriminate].
    destruct (Dict.get r (participants s)) as [receiver|] eqn:Erec;
      [|discriminate].
    intros [= <- <-]. split; [reflexivity|]. exists p, r, receiver. auto.
Qed.

Lemma get_assignment_contract_witness :
  get_assignment "u3" two_shuffled = Raises NotFound two_shuffled /\
  get_assignment "u1" two_joined = Raises NotReady two_joined /\
  get_assignment "u1" two_shuffled
  = Returns (Assignment [ ("name", Some "Bob");
                          ("giftPreference", Some "socks") ])
            two_shuffled.
Proof.
  destruct (get_assignment_contract "u3" two_shuffled) as (Hmissing & _).
  destruct (get_assignment_contract "u1" two_joined) as (_ & Hunset & _).
  destruct (get_assignment_contract "u1" two_shuffled) as (_ & _ & Hset & _).
  split; [|split].
  - apply Hmissing. reflexivity.
  - apply (Hunset {| id := "u1"; name := "Alice"; giftPreference := None;
                     assignedTo := None |}); reflexivity.
  - apply (Hset {| id := "u1"; name := "Alice"; giftPreference := None;
                   assignedTo := Some "u2" |}
                "u2"
                {| id := "u2"; name := "Bob"; giftPreference := Some "socks";
                   assignedTo := Some "u1" |}); reflexivity.
Defined.

(** ** Trimming *)


Lemma lstrip_decompose (s : string) :
  exists l, s = (l ++ PyStr.lstrip s)%string /\ PyStr.blank l = true.
Proof.
  induction s as [|c s (l & Hs & Hl)]; simpl.
  - now exists "".
  - destruct (PyStr.isspace c) eqn:E.
    + exists (String c l). simpl. rewrite E, Hl.
      split; [now rewrite <- Hs|reflexivity].
    + now exists "".
Qed.

Lemma rstrip_decompose (s : string) :
  exists r, s = (PyStr.rstrip s ++ r)%string /\ PyStr.blank r = true.
Proof.
  induction s as [|c s (r & Hs & Hr)].
  - now exists "".
  - cbn [PyStr.rstrip]. destruct (PyStr.blank (String c s)) eqn:E.
    + now exists (String c s).
    + exists r. simpl. split; congruence.
Qed.

Lemma lstrip_blank (s : string) :
  PyStr.blank s = true -> PyStr.lstrip s = "".
Proof.
  induction s as [|c s IH]; simpl; [reflexivity|].
  destruct (PyStr.isspace c); [exact IH|discriminate].
Qed.

Lemma blank_rstrip (s : string) :
  PyStr.blank s = false -> PyStr.blank (PyStr.rstrip s) = false.
Proof.
  induction s as [|c s IH]; [discriminate|].
  intros H. cbn [PyStr.rstrip]. rewrite H. simpl in *.
  destruct (PyStr.isspace c); [|reflexivity]. simpl in *. auto.
Qed.

Lemma strip_blank (s : string) : PyStr.blank s = true -> PyStr.strip s = "".
Proof. intros H. unfold PyStr.strip. now rewrite lstrip_blank. Qed.

(** [strip] removes a run of whitespace at each end. *)
Lemma strip_decompose (s : string) :
  exists l r,
    s = (l ++ PyStr.strip s ++ r)%string /\
    PyStr.blank l = true /\ PyStr.blank r = true.
Proof.
  destruct (lstrip_decompose s) as (l & Hs & Hl).
  destruct (rstrip_decompose (PyStr.lstrip s)) as (r & Hs' & Hr).
  exists l, r. unfold PyStr.strip. now rewrite <- Hs', <- Hs.
Qed.

(** What [strip] returns neither starts nor ends with whitespace. *)
Lemma strip_trimmed (s : string) :
  (forall c rest, PyStr.strip s = String c rest -> PyStr.isspace c = false) /\
  (forall t u, PyStr.strip s = (t ++ u)%string -> u <> "" ->
               PyStr.blank u = false).
Proof.
  unfold PyStr.strip. split.
  - assert (Hhead : forall c rest,
               PyStr.lstrip s = String c rest -> PyStr.isspace c = false).
    { induction s as [|c0 s IH]; simpl; [discriminate|].
      destruct (PyStr.isspace c0) eqn:E; [exact IH|].
      intros c rest [= <- _]. exact E. }
    destruct (PyStr.lstrip s) as [|c0 s0]; [discriminate|].
    cbn [PyStr.rstrip]. destruct (PyStr.blank (String c0 s0)); [discriminate|].
    intros c rest [= <- _]. now apply (Hhead c0 s0).
  - generalize (PyStr.lstrip s). clear s. intros s.
    induction s as [|c s IH]; intros t u.
    + destruct t, u; simpl; congruence.
    + cbn [PyStr.rstrip]. destruct (PyStr.blank (String c s)) eqn:E.
      * destruct t, u; simpl; congruence.
      * destruct t as [|c' t]; simpl.
        -- intros <- _. pose proof (blank_rstrip (String c s) E) as Hb.
           cbn [PyStr.rstrip] in Hb. rewrite E in Hb. exact Hb.
        -- intros [= _ H] Hu. exact (IH _ _ H Hu).
Qed.

(** ** Joining *)

(** An empty name is rejected before the handler's body runs. *)
Lemma add_participant_empty_name participant_in uuid4 s :
  ParticipantIn.name participant_in = "" ->
  add_participant participant_in uuid4 s = Raises InvalidInput s.
Proof.
  intros H. unfold add_participant, ParticipantIn.valid. now rewrite H.
Qed.

(** What a join stores while the gate is open: the name trimmed, and
    the preference trimmed unless it was absent or empty. *)
Lemma add_participant_open participant_in uuid4 s :
  ParticipantIn.name participant_in <> "" -> shuffled s = false ->
  exists s',
    add_participant participant_in uuid4 s
    = Returns (Joined uuid4 ("/my-assignment/" ++ uuid4)) s' /\
    Dict.get uuid4 (participants s') =
    Some {| id := uuid4;
            name := PyStr.strip (ParticipantIn.name participant_in);
            giftPreference :=
              match ParticipantIn.giftPreference participant_in with
              | None => None
              | Some "" => None
              | Some pref => Some (PyStr.strip pref)
              end;
            assignedTo := None |}.
Proof.
  intros Hname Hopen. unfold add_participant, ParticipantIn.valid.
  destruct (ParticipantIn.name participant_in) as [|c n] eqn:E;
    [congruence|].
  cbn [String.length Nat.leb negb]. rewrite Hopen.
  eexists. split; [reflexivity|].
  cbn [save_data with_participants with_registry participants].
  rewrite get_set, String.eqb_refl.
  destruct (ParticipantIn.giftPreference participant_in) as [[|c' pref]|];
    reflexivity.
Qed.

(** A name made of whitespace only is accepted while the gate is open
    and stored as the empty name. *)
Lemma add_participant_blank_name participant_in uuid4 s :
  ParticipantIn.name participant_in <> "" ->
  PyStr.blank (ParticipantIn.name participant_in) = true ->
  shuffled s = false ->
  exists s' p,
    add_participant participant_in uuid4 s
    = Returns (Joined uuid4 ("/my-assignment/" ++ uuid4)) s' /\
    Dict.get uuid4 (participants s') = Some p /\ name p = "".
Proof.
  intros Hname Hblank Hopen.
  destruct (@add_participant_open participant_in uuid4 s Hname Hopen)
    as (s' & Hret & Hget).
  eexists s', _. split; [exact Hret|]. split; [exact Hget|].
  cbn [name]. now apply strip_blank.
Qed.

(** A preference made of whitespace only, and not empty, is stored as
    the empty string. *)
Lemma add_participant_blank_preference participant_in uuid4 s pref :
  ParticipantIn.name participant_in <> "" ->
  ParticipantIn.giftPreference participant_in = Some pref ->
  pref <> "" -> PyStr.blank pref = true ->
  shuffled s = false ->
  exists s' p,
    add_participant participant_in uuid4 s
    = Returns (Joined uuid4 ("/my-assignment/" ++ uuid4)) s' /\
    Dict.get uuid4 (participants s') = Some p /\
    giftPreference p = Some "".
Proof.
  intros Hname Hpref Hne Hblank Hopen.
  destruct (@add_participant_open participant_in uuid4 s Hname Hopen)
    as (s' & Hret & Hget).
  eexists s', _. split; [exact Hret|]. split; [exact Hget|].
  cbn [giftPreference]. rewrite Hpref.
  destruct pref as [|c pref]; [congruence|]. now rewrite strip_blank.
Qed.

(** C8, at the failing input. A join whose name is one space passes
    the length check made on the name as submitted, and the participant
    is registered under the empty name: the request does not fail and
    the registry changes. *)
Theorem whitespace_name_is_accepted :
  PyStr.strip " " = "" /\
  add_participant
    {| ParticipantIn.name := " "; ParticipantIn.giftPreference := None |}
    "u1" (fresh "santaadmin" (zeros 0))
  = Returns (Joined "u1" "/my-assignment/u1")
      (save_data
         (with_participants
            [ ("u1", {| id := "u1"; name := ""; giftPreference := None;
                        assignedTo := None |}) ]
            (fresh "santaadmin" (zeros 0)))).
Proof. split; reflexivity. Qed.

(** C9, at the failing input. A join whose gift preference is two
    spaces stores the empty string as the preference, not [None]. *)
Theorem blank_preference_is_stored_empty :
  PyStr.blank "  " = true /\
  add_participant
    {| ParticipantIn.name := "Alice";
       ParticipantIn.giftPreference := Some "  " |}
    "u1" (fresh "santaadmin" (zeros 0))
  = Returns (Joined "u1" "/my-assignment/u1")
      (save_data
         (with_participants
            [ ("u1", {| id := "u1"; name := "Alice";
                        giftPreference := Some ""; assignedTo := None |}) ]
            (fresh "santaadmin" (zeros 0)))).
Proof. split; reflexivity. Qed.

(* ================================================================= *)
(** * Further properties of the handlers *)

(** ** The admin secret *)

Lemma require_admin_iff secret s :
  require_admin secret s = true <-> secret = Some (ADMIN_SECRET s).
Proof.
  unfold require_admin. destruct secret as [x|].
  - destruct (String.eqb_spec x (ADMIN_SECRET s)) as [->|Hne].
    + tauto.
    + split; [discriminate|]. intros [= ->]. contradiction.
  - split; discriminate.
Qed.

(** X1. A request to list, to remove or to shuffle whose secret is
    missing or differs from [ADMIN_SECRET] raises the 403 and leaves
    the state as it is, whatever the registry, the gate and the
    identity named. *)
Theorem privileged_requests_need_secret (s : state) (secret : option string) :
  secret <> Some (ADMIN_SECRET s) ->
  list_participants secret s = Raises Forbidden s /\
  (forall participant_id,
      remove_participant participant_id secret s = Raises Forbidden s) /\
  (forall fuel, shuffle fuel secret s = Raises Forbidden s).
Proof.
  intros Hne.
  assert (Hadm : require_admin secret s = false).
  { destruct (require_admin secret s) eqn:E; [|reflexivity].
    apply require_admin_iff in E. contradiction. }
  unfold list_participants, remove_participant, shuffle. rewrite Hadm.
  repeat split.
Qed.

Lemma privileged_requests_need_secret_witness :
  list_participants None two_joined = Raises Forbidden two_joined /\
  (forall participant_id,
      remove_participant participant_id None two_joined
      = Raises Forbidden two_joined) /\
  (forall fuel, shuffle fuel None two_joined = Raises Forbidden two_joined).
Proof.
  apply (@privileged_requests_need_secret two_joined None). discriminate.
Defined.

(** ** Joining and leaving *)

Lemma valid_nonempty participant_in :
  ParticipantIn.name participant_in <> "" ->
  ParticipantIn.valid participant_in = true.
Proof.
  unfold ParticipantIn.valid.
  destruct (ParticipantIn.name participant_in); [congruence|reflexivity].
Qed.

(** X2. A join with a non-empty name is decided by the gate alone:
    once the shuffle has run it raises the 400 and changes nothing;
    before, it returns the identity drawn and the link made of it,
    leaves the gate open, has written the file, has filed under that
    identity a record with this identity and no assignment, and has
    left the record under every other identity as it was. *)
Theorem join_is_gated (participant_in : ParticipantIn.t) (uuid4 : string)
    (s : state) :
  ParticipantIn.name participant_in <> "" ->
  (shuffled s = true ->
   add_participant participant_in uuid4 s = Raises AlreadyClosed_join s) /\
  (shuffled s = false ->
   exists s',
     add_participant participant_in uuid4 s
     = Returns (Joined uuid4 ("/my-assignment/" ++ uuid4)) s' /\
     shuffled s' = false /\
     DATA_FILE s' = Some (payload s') /\
     (exists p, Dict.get uuid4 (participants s') = Some p /\
                id p = uuid4 /\ assignedTo p = None) /\
     (forall k, k <> uuid4 ->
                Dict.get k (participants s') = Dict.get k (participants s))).
Proof.
  intros Hname. apply valid_nonempty in Hname.
  unfold add_participant. rewrite Hname. cbn [negb]. split; intros Hgate;
    rewrite Hgate.
  - reflexivity.
  - eexists. split; [reflexivity|].
    cbn [save_data with_participants with_registry participants shuffled
         DATA_FILE].
    split; [exact Hgate|]. split; [reflexivity|]. split.
    + eexists. rewrite get_set, String.eqb_refl. split; [reflexivity|].
      split; reflexivity.
    + intros k Hk. rewrite get_set.
      destruct (String.eqb_spec k uuid4); [contradiction|reflexivity].
Qed.

Lemma join_is_gated_witness :
  (shuffled two_shuffled = true ->
   add_participant
     {| ParticipantIn.name := "Carol"; ParticipantIn.giftPreference := None |}
     "u3" two_shuffled
   = Raises AlreadyClosed_join two_shuffled) /\
  (shuffled two_shuffled = false ->
   exists s',
     add_participant
       {| ParticipantIn.name := "Carol";
          ParticipantIn.giftPreference := None |}
       "u3" two_shuffled
     = Returns (Joined "u3" ("/my-assignment/" ++ "u3")) s' /\
     shuffled s' = false /\
     DATA_FILE s' = Some (payload s') /\
     (exists p, Dict.get "u3" (participants s') = Some p /\
                id p = "u3" /\ assignedTo p = None) /\
     (forall k, k <> "u3" ->
                Dict.get k (participants s')
                = Dict.get k (participants two_shuffled))).
Proof.
  apply (@join_is_gated
           {| ParticipantIn.name := "Carol";
              ParticipantIn.giftPreference := None |} "u3" two_shuffled).
  discriminate.
Defined.

Lemma mem_false_iff {V : Type} (d : Dict.t V) k :
  Dict.mem k d = false <-> ~ In k (Dict.keys d).
Proof.
  rewrite <- mem_true_iff. destruct (Dict.mem k d); split; congruence.
Qed.

(** X3. While the gate is open, a join with a non-empty name under an
    identity not yet in the registry puts its record behind all the
    others and changes none of them: the listing an admin gets
    afterwards is the one before followed by the new record. *)
Theorem join_appends (participant_in : ParticipantIn.t) (uuid4 : string)
    (s : state) :
  ParticipantIn.name participant_in <> "" ->
  shuffled s = false ->
  Dict.mem uuid4 (participants s) = false ->
  exists p s',
    add_participant participant_in uuid4 s
    = Returns (Joined uuid4 ("/my-assignment/" ++ uuid4)) s' /\
    participants s' = participants s ++ [(uuid4, p)] /\
    list_participants (Some (ADMIN_SECRET s')) s'
    = Returns (Listing (Dict.values (participants s) ++ [p])) s'.
Proof.
  intros Hname Hopen Hnew. apply valid_nonempty in Hname.
  apply mem_false_iff in Hnew.
  unfold add_participant. rewrite Hname, Hopen. cbn [negb].
  eexists. eexists. split; [reflexivity|].
  cbn [save_data with_participants with_registry participants].
  rewrite set_absent by assumption. split; [reflexivity|].
  unfold list_participants, require_admin.
  cbn [ADMIN_SECRET participants save_data with_participants with_registry].
  rewrite String.eqb_refl. cbn [negb].
  unfold Dict.values. rewrite map_app. reflexivity.
Qed.

Lemma join_appends_witness :
  exists p s',
    add_participant
      {| ParticipantIn.name := "Carol"; ParticipantIn.giftPreference := None |}
      "u3" two_joined
    = Returns (Joined "u3" ("/my-assignment/" ++ "u3")) s' /\
    participants s' = participants two_joined ++ [("u3", p)] /\
    list_participants (Some (ADMIN_SECRET s')) s'
    = Returns (Listing (Dict.values (participants two_joined) ++ [p])) s'.
Proof.
  apply (@join_appends
           {| ParticipantIn.name := "Carol";
              ParticipantIn.giftPreference := None |} "u3" two_joined).
  - discriminate.
  - reflexivity.
  - reflexivity.
Defined.

(** X4. The handler does not look whether the identity drawn is taken:
    while the gate is open, a join under an identity already in the
    registry succeeds, keeps the keys and their order, and puts the
    newcomer's record in the place of the one that was there. *)
Theorem join_under_taken_identity_replaces (participant_in : ParticipantIn.t)
    (uuid4 : string) (s : state) :
  ParticipantIn.name participant_in <> "" ->
  shuffled s = false ->
  Dict.mem uuid4 (participants s) = true ->
  exists s',
    add_participant participant_in uuid4 s
    = Returns (Joined uuid4 ("/my-assignment/" ++ uuid4)) s' /\
    Dict.keys (participants s') = Dict.keys (participants s) /\
    exists p,
      Dict.get uuid4 (participants s') = Some p /\
      name p = PyStr.strip (ParticipantIn.name participant_in) /\
      assignedTo p = None.
Proof.
  intros Hname Hopen Htaken. apply valid_nonempty in Hname.
  unfold add_participant. rewrite Hname, Hopen. cbn [negb].
  eexists. split; [reflexivity|].
  cbn [save_data with_participants with_registry participants].
  rewrite keys_set, Htaken. split; [reflexivity|].
  eexists. rewrite get_set, String.eqb_refl.
  split; [reflexivity|]. split; reflexivity.
Qed.

Lemma join_under_taken_identity_replaces_witness :
  exists s',
    add_participant
      {| ParticipantIn.name := " Carol ";
         ParticipantIn.giftPreference := None |}
      "u1" two_joined
    = Returns (Joined "u1" ("/my-assignment/" ++ "u1")) s' /\
    Dict.keys (participants s') = Dict.keys (participants two_joined) /\
    exists p,
      Dict.get "u1" (participants s') = Some p /\
      name p = PyStr.strip " Carol " /\
      assignedTo p = None.
Proof.
  apply (@join_under_taken_identity_replaces
           {| ParticipantIn.name := " Carol ";
              ParticipantIn.giftPreference := None |} "u1" two_joined).
  - discriminate.
  - reflexivity.
  - reflexivity.
Defined.

Lemma pop_set_absent {V : Type} (d : Dict.t V) k v :
  ~ In k (Dict.keys d) -> Dict.pop k (Dict.set k v d) = d.
Proof.
  induction d as [|[k0 v0] d IH]; simpl; intros H.
  - now rewrite String.eqb_refl.
  - destruct (String.eqb_spec k k0) as [->|Hne]; [tauto|].
    simpl. destruct (String.eqb_spec k k0); [contradiction|].
    f_equal. apply IH. tauto.
Qed.

(** X5. While the gate is open, a join under an identity not yet in the
    registry followed by the admin's removal of that identity gives the
    registry back: the same records in the same order, the gate still
    open, and in the file what [save_data] writes for the registry
    before the join. *)
Theorem join_then_remove_restores (participant_in : ParticipantIn.t)
    (uuid4 : string) (s : state) :
  ParticipantIn.name participant_in <> "" ->
  shuffled s = false ->
  Dict.mem uuid4 (participants s) = false ->
  exists s1 s2,
    add_participant participant_in uuid4 s
    = Returns (Joined uuid4 ("/my-assignment/" ++ uuid4)) s1 /\
    remove_participant uuid4 (Some (ADMIN_SECRET s1)) s1 = Returns Removed s2 /\
    participants s2 = participants s /\
    shuffled s2 = shuffled s /\
    DATA_FILE s2 = Some (payload s).
Proof.
  intros Hname Hopen Hnew. apply valid_nonempty in Hname.
  apply mem_false_iff in Hnew.
  unfold add_participant. rewrite Hname, Hopen. cbn [negb].
  eexists. eexists. split; [reflexivity|].
  unfold remove_participant, require_admin, Dict.mem.
  cbn [save_data with_participants with_registry participants shuffled
       ADMIN_SECRET].
  rewrite String.eqb_refl, Hopen, get_set, String.eqb_refl. cbn [negb].
  split; [reflexivity|].
  cbn [save_data with_participants with_registry participants shuffled
       DATA_FILE].
  rewrite pop_set_absent by assumption.
  split; [reflexivity|]. split; [now rewrite Hopen|].
  unfold payload.
  cbn [save_data with_participants with_registry participants shuffled].
  now rewrite Hopen.
Qed.

Lemma join_then_remove_restores_witness :
  exists s1 s2,
    add_participant
      {| ParticipantIn.name := "Carol"; ParticipantIn.giftPreference := None |}
      "u3" two_joined
    = Returns (Joined "u3" ("/my-assignment/" ++ "u3")) s1 /\
    remove_participant "u3" (Some (ADMIN_SECRET s1)) s1 = Returns Removed s2 /\
    participants s2 = participants two_joined /\
    shuffled s2 = shuffled two_joined /\
    DATA_FILE s2 = Some (payload two_joined).
Proof.
  apply (@join_then_remove_restores
           {| ParticipantIn.name := "Carol";
              ParticipantIn.giftPreference := None |} "u3" two_joined).
  - discriminate.
  - reflexivity.
  - reflexivity.
Defined.

Lemma filter_other_keys {V : Type} (d : Dict.t V) k :
  ~ In k (Dict.keys d) ->
  filter (fun kv => negb (String.eqb k (fst kv))) d = d.
Proof.
  induction d as [|[k0 v0] d IH]; simpl; intros H; [reflexivity|].
  destruct (String.eqb_spec k k0) as [->|_]; [tauto|].
  simpl. f_equal. apply IH. tauto.
Qed.

Lemma pop_filter {V : Type} (d : Dict.t V) k :
  NoDup (Dict.keys d) ->
  Dict.pop k d = filter (fun kv => negb (String.eqb k (fst kv))) d.
Proof.
  induction d as [|[k0 v0] d IH]; simpl; intros Hnd; [reflexivity|].
  inversion Hnd as [|? ? Hnotin Hnd']; subst.
  destruct (String.eqb_spec k k0) as [->|_]; simpl.
  - symmetry. now apply filter_other_keys.
  - f_equal. now apply IH.
Qed.

Lemma length_pop {V : Type} (d : Dict.t V) k :
  Dict.mem k d = true -> S (List.length (Dict.pop k d)) = List.length d.
Proof.
  unfold Dict.mem. induction d as [|[k0 v0] d IH]; simpl; [discriminate|].
  destruct (String.eqb_spec k k0) as [->|_]; [reflexivity|].
  intros H. simpl. f_equal. now apply IH.
Qed.

(** X6. While the gate is open, the admin's removal of a registered
    identity returns, takes exactly that entry out and keeps the others
    with their records and their order, leaves one participant fewer,
    and has written the file; the same request made again raises the
    404. *)
Theorem remove_takes_one_out (participant_id : string)
    (secret : option string) (s : state) :
  NoDup (Dict.keys (participants s)) ->
  require_admin secret s = true ->
  shuffled s = false ->
  Dict.mem participant_id (participants s) = true ->
  exists s',
    remove_participant participant_id secret s = Returns Removed s' /\
    participants s'
    = filter (fun kp => negb (String.eqb participant_id (fst kp)))
             (participants s) /\
    S (List.length (participants s')) = List.length (participants s) /\
    DATA_FILE s' = Some (payload s') /\
    remove_participant participant_id secret s' = Raises NotFound s'.
Proof.
  intros Hnd Hadm Hopen Hmem. unfold remove_participant at 1.
  rewrite Hadm, Hopen, Hmem. cbn [negb].
  eexists. split; [reflexivity|].
  cbn [save_data with_participants with_registry participants DATA_FILE].
  split; [now apply pop_filter|]. split; [now apply length_pop|].
  split; [reflexivity|].
  unfold remove_participant, require_admin in *.
  cbn [save_data with_participants with_registry participants shuffled
       ADMIN_SECRET].
  rewrite Hadm, Hopen. cbn [negb].
  assert (Hgone : Dict.mem participant_id
                    (Dict.pop participant_id (participants s)) = false).
  { apply mem_false_iff. rewrite pop_filter by assumption.
    unfold Dict.keys. rewrite in_map_iff. intros ([k v] & Hk & Hin).
    simpl in Hk. subst k. apply filter_In in Hin. destruct Hin as [_ Hin].
    simpl in Hin. now rewrite String.eqb_refl in Hin. }
  now rewrite Hgone.
Qed.

Lemma remove_takes_one_out_witness :
  exists s',
    remove_participant "u1" (Some "santaadmin") two_joined
    = Returns Removed s' /\
    participants s'
    = filter (fun kp => negb (String.eqb "u1" (fst kp)))
             (participants two_joined) /\
    S (List.length (participants s')) = List.length (participants two_joined) /\
    DATA_FILE s' = Some (payload s') /\
    remove_participant "u1" (Some "santaadmin") s' = Raises NotFound s'.
Proof.
  apply (@remove_takes_one_out "u1" (Some "santaadmin") two_joined).
  - repeat constructor; simpl; intuition discriminate.
  - reflexivity.
  - reflexivity.
  - reflexivity.
Defined.

(** ** Listing *)

Lemma ids_are_keys (d : Dict.t Participant) :
  Forall (fun kp => id (snd kp) = fst kp) d ->
  map id (Dict.values d) = Dict.keys d.
Proof.
  induction 1 as [|[k p] d Hk _ IH]; simpl; [reflexivity|].
  simpl in Hk. now rewrite Hk, IH.
Qed.

(** X7. In every state of a running service, whatever data file it was
    started on, the listing an admin gets holds the records in the
    order of the registry, no two of them with the same [id], and
    asking for it changes nothing. *)
Theorem listing_has_distinct_ids (s : state) (secret : option string) :
  running s ->
  require_admin secret s = true ->
  list_participants secret s
  = Returns (Listing (Dict.values (participants s))) s /\
  NoDup (map id (Dict.values (participants s))).
Proof.
  intros Hs Hadm. apply running_consistent in Hs.
  destruct Hs as [[Hnd Hid] _].
  unfold list_participants. rewrite Hadm. split; [reflexivity|].
  now rewrite ids_are_keys.
Qed.

Lemma listing_has_distinct_ids_witness :
  list_participants (Some "santaadmin") two_shuffled
  = Returns (Listing (Dict.values (participants two_shuffled))) two_shuffled /\
  NoDup (map id (Dict.values (participants two_shuffled))).
Proof.
  apply (@listing_has_distinct_ids two_shuffled (Some "santaadmin")).
  - apply reachable_running, two_shuffled_reachable.
  - reflexivity.
Defined.

(** ** The shuffle *)

Lemma shuffle_returns_open fuel secret s resp s' :
  shuffle fuel secret s = Returns resp s' ->
  require_admin secret s = true /\ shuffled s = false /\
  2 <= List.length (participants s).
Proof.
  unfold shuffle.
  destruct (require_admin secret s); cbn [negb]; [|discriminate].
  destruct (shuffled s); [discriminate|].
  destruct (Nat.ltb_spec (List.length (participants s)) 2); [discriminate|].
  auto.
Qed.

(** A shuffle that returns has assigned along one accepted draw and
    answers with the names looked up in the registry it leaves. *)
Lemma shuffle_returns_shape fuel secret s resp s' :
  registry_wf (participants s) ->
  shuffle fuel secret s = Returns resp s' ->
  exists receivers g l,
    Permutation receivers (Dict.keys (participants s)) /\
    no_self_pair (combine (Dict.keys (participants s)) receivers) = true /\
    assignments_for_admin (combine (Dict.keys (participants s)) receivers)
      (assigned_along (participants s) receivers) = Some l /\
    resp = ShuffleReady l /\
    s' = save_data
           (with_random g
              (with_registry (assigned_along (participants s) receivers)
                 true s)).
Proof.
  intros [Hnd Hid] H.
  destruct (shuffle_returns_open _ _ _ H) as (Hadm & Hopen & Hlen).
  revert H. unfold shuffle. rewrite Hadm, Hopen. cbn [negb].
  destruct (Nat.ltb_spec (List.length (participants s)) 2) as [?|_]; [lia|].
  destruct (build_valid_assignment fuel (random_state s)
              (Dict.keys (participants s))) as [[m g]|] eqn:E;
    [|discriminate].
  destruct (build_valid_assignment_accepts _ _ _ E)
    as (receivers & Hperm & Hself & ->).
  assert (Hl : List.length receivers = List.length (participants s)).
  { rewrite (Permutation_length Hperm). apply length_map. }
  rewrite of_pairs_distinct
    by (rewrite combine_fst;
        [assumption|unfold Dict.keys; rewrite length_map; congruence]).
  pose proof (@assign_all_along [] (participants s) receivers Hnd Hl) as Ha.
  cbn [app] in Ha. rewrite Ha.
  cbn [save_data participants with_random with_registry].
  destruct (assignments_for_admin _ _) as [l|] eqn:El; [|discriminate].
  intros [= <- <-]. exists receivers, g, l. auto.
Qed.

Lemma profile_assigned_along d receivers :
  map profile (Dict.values (assigned_along d receivers))
  = map profile (Dict.values d).
Proof.
  revert receivers. induction d as [|[k p] d IH]; intros [|r receivers];
    simpl; try reflexivity.
  f_equal. apply IH.
Qed.

Lemma assignedTo_assigned_along d receivers :
  List.length receivers = List.length d ->
  map assignedTo (Dict.values (assigned_along d receivers))
  = map Some receivers.
Proof.
  revert receivers. induction d as [|[k p] d IH]; intros [|r receivers];
    simpl; try discriminate; try reflexivity.
  intros [= H]. f_equal. now apply IH.
Qed.

(** X8. When a shuffle returns in a running service, the gate is
    closed and the file written; the registry holds the same
    identities in the same order with the same names and preferences;
    and the [assignedTo] fields, read in that order, are a rearrangement
    of the registry's identities that gives nobody their own. *)
Theorem shuffle_assigns_everyone (s : state) (fuel : nat)
    (secret : option string) (resp : response) (s' : state) :
  running s ->
  shuffle fuel secret s = Returns resp s' ->
  shuffled s' = true /\
  DATA_FILE s' = Some (payload s') /\
  Dict.keys (participants s') = Dict.keys (participants s) /\
  map profile (Dict.values (participants s'))
  = map profile (Dict.values (participants s)) /\
  exists receivers,
    map assignedTo (Dict.values (participants s')) = map Some receivers /\
    Permutation receivers (Dict.keys (participants s)) /\
    no_self_pair (combine (Dict.keys (participants s)) receivers) = true.
Proof.
  intros Hs H. apply running_consistent in Hs. destruct Hs as [Hwf _].
  destruct (@shuffle_returns_shape fuel secret s resp s' Hwf H)
    as (receivers & g & l & Hperm & Hself & _ & _ & ->).
  cbn [save_data with_random with_registry participants shuffled DATA_FILE].
  split; [reflexivity|]. split; [reflexivity|].
  split; [apply keys_assigned_along|].
  split; [apply profile_assigned_along|].
  exists receivers. split; [|auto].
  apply assignedTo_assigned_along.
  rewrite (Permutation_length Hperm). apply length_map.
Qed.

Lemma shuffle_assigns_everyone_witness :
  shuffled two_shuffled = true /\
  DATA_FILE two_shuffled = Some (payload two_shuffled) /\
  Dict.keys (participants two_shuffled) = Dict.keys (participants two_joined) /\
  map profile (Dict.values (participants two_shuffled))
  = map profile (Dict.values (participants two_joined)) /\
  exists receivers,
    map assignedTo (Dict.values (participants two_shuffled))
    = map Some receivers /\
    Permutation receivers (Dict.keys (participants two_joined)) /\
    no_self_pair (combine (Dict.keys (participants two_joined)) receivers)
    = true.
Proof.
  apply (@shuffle_assigns_everyone two_joined 1 (Some "santaadmin")
           (ShuffleReady [("Alice", "Bob"); ("Bob", "Alice")]) two_shuffled).
  - apply reachable_running, two_joined_reachable.
  - reflexivity.
Defined.

(** The name under which the registry knows an identity. *)
Lemma assignments_for_admin_names items (d : Dict.t Participant) l :
  assignments_for_admin items d = Some l ->
  l = map (fun gr =>
             (match Dict.get (fst gr) d with Some p => name p | None => "" end,
              match Dict.get (snd gr) d with Some p => name p | None => "" end))
          items.
Proof.
  revert l. induction items as [|[g r] items IH]; intros l; simpl.
  - now intros [= <-].
  - destruct (Dict.get g d) as [pg|]; [|discriminate].
    destruct (Dict.get r d) as [pr|]; [|discriminate].
    destruct (assignments_for_admin items d) as [l'|]; [|discriminate].
    intros [= <-]. f_equal. now apply IH.
Qed.

Lemma names_of_keys (d : Dict.t Participant) :
  NoDup (Dict.keys d) ->
  map (fun k => match Dict.get k d with Some p => name p | None => "" end)
      (Dict.keys d)
  = map name (Dict.values d).
Proof.
  unfold Dict.keys, Dict.values.
  induction d as [|[k p] d IH]; intros Hnd; [reflexivity|].
  inversion Hnd as [|? ? Hnotin Hnd']; subst.
  cbn [map fst snd Dict.get].
  rewrite String.eqb_refl. f_equal.
  rewrite <- IH by assumption. apply map_ext_in. intros k' Hk'.
  destruct (String.eqb_spec k' k) as [->|_]; [contradiction|reflexivity].
Qed.

(** X9. The answer of a shuffle that returns in a running service
    lists one pair of names per participant: the givers are the names
    of the registry in its order, the receivers a rearrangement of the
    same names. *)
Theorem shuffle_answers_with_names (s : state) (fuel : nat)
    (secret : option string) (resp : response) (s' : state) :
  running s ->
  shuffle fuel secret s = Returns resp s' ->
  exists assignments,
    resp = ShuffleReady assignments /\
    map fst assignments = map name (Dict.values (participants s)) /\
    Permutation (map snd assignments)
                (map name (Dict.values (participants s))).
Proof.
  intros Hs H. apply running_consistent in Hs. destruct Hs as [Hwf _].
  destruct (@shuffle_returns_shape fuel secret s resp s' Hwf H)
    as (receivers & g & l & Hperm & Hself & Hl & -> & _).
  destruct (assigned_along_ok Hwf Hperm Hself) as [[Hnd' _] _].
  assert (Hlen : List.length (Dict.keys (participants s))
                 = List.length receivers).
  { symmetry. apply (Permutation_length Hperm). }
  assert (Hnames :
            map name (Dict.values (assigned_along (participants s) receivers))
            = map name (Dict.values (participants s))).
  { pose proof (profile_assigned_along (participants s) receivers) as Hp.
    apply (f_equal (map (fun t => snd (fst t)))) in Hp.
    rewrite !map_map in Hp. exact Hp. }
  exists l. split; [reflexivity|].
  apply assignments_for_admin_names in Hl. subst l.
  rewrite !map_map. cbn [fst snd].
  rewrite <- (map_map fst (fun k => match Dict.get k _ with
                                    | Some p => name p | None => "" end)).
  rewrite <- (map_map snd (fun k => match Dict.get k _ with
                                    | Some p => name p | None => "" end)).
  rewrite combine_fst, combine_snd by assumption.
  rewrite <- Hnames, <- (@names_of_keys _ Hnd'), keys_assigned_along.
  split; [reflexivity|]. now apply Permutation_map.
Qed.

Lemma shuffle_answers_with_names_witness :
  exists assignments,
    ShuffleReady [("Alice", "Bob"); ("Bob", "Alice")]
    = ShuffleReady assignments /\
    map fst assignments = map name (Dict.values (participants two_joined)) /\
    Permutation (map snd assignments)
                (map name (Dict.values (participants two_joined))).
Proof.
  apply (@shuffle_answers_with_names two_joined 1 (Some "santaadmin")
           (ShuffleReady [("Alice", "Bob"); ("Bob", "Alice")]) two_shuffled).
  - apply reachable_running, two_joined_reachable.
  - reflexivity.
Defined.

Lemma truthy_nonempty (x : string) : x <> "" -> PyStr.truthy x = true.
Proof. destruct x; [congruence|reflexivity]. Qed.

(** X10. After a shuffle that returned in a running service none of
    whose identities is the empty string, every registered participant
    who asks for the assignment gets the name and the gift preference of
    a registered participant with another identity, and the state stays
    as it is. *)
Theorem everyone_gets_an_assignment (s : state) (fuel : nat)
    (secret : option string) (resp : response) (s' : state)
    (participant_id : string) :
  running s ->
  (forall k, In k (Dict.keys (participants s)) -> k <> "") ->
  shuffle fuel secret s = Returns resp s' ->
  In participant_id (Dict.keys (participants s')) ->
  exists receiver_id receiver,
    get_assignment participant_id s'
    = Returns (Assignment [ ("name", Some (name receiver));
                            ("giftPreference", giftPreference receiver) ])
              s' /\
    Dict.get receiver_id (participants s') = Some receiver /\
    receiver_id <> participant_id.
Proof.
  intros Hs Hne H Hin. apply running_consistent in Hs. destruct Hs as [Hwf _].
  destruct (@shuffle_returns_shape fuel secret s resp s' Hwf H)
    as (receivers & g & l & Hperm & Hself & _ & _ & ->).
  cbn [save_data with_random with_registry participants] in Hin.
  unfold get_assignment.
  cbn [save_data with_random with_registry participants].
  destruct (assigned_along_ok Hwf Hperm Hself) as [[Hnd' _] _].
  assert (Hlen : List.length receivers = List.length (participants s)).
  { rewrite (Permutation_length Hperm). apply length_map. }
  unfold Dict.keys in Hin. apply in_map_iff in Hin.
  destruct Hin as ([k p'] & Hk & Hin). simpl in Hk. subst k.
  rewrite (In_get _ _ _ Hnd' Hin).
  destruct (In_assigned_along _ _ _ _ Hlen Hin) as (p & r & _ & Hc & ->).
  cbn [set_assignedTo assignedTo].
  assert (Hr : In r (Dict.keys (participants s))).
  { apply (Permutation_in _ Hperm). eapply in_combine_r, Hc. }
  rewrite (truthy_nonempty (Hne _ Hr)). cbn [negb].
  rewrite <- (keys_assigned_along (participants s) receivers) in Hr.
  destruct (get_Some_of_key _ _ Hr) as [receiver Hrec]. rewrite Hrec.
  exists r, receiver. split; [reflexivity|]. split; [exact Hrec|].
  rewrite no_self_pair_spec in Hself. specialize (Hself _ _ Hc). congruence.
Qed.

Lemma everyone_gets_an_assignment_witness :
  exists receiver_id receiver,
    get_assignment "u2" two_shuffled
    = Returns (Assignment [ ("name", Some (name receiver));
                            ("giftPreference", giftPreference receiver) ])
              two_shuffled /\
    Dict.get receiver_id (participants two_shuffled) = Some receiver /\
    receiver_id <> "u2".
Proof.
  apply (@everyone_gets_an_assignment two_joined 1 (Some "santaadmin")
           (ShuffleReady [("Alice", "Bob"); ("Bob", "Alice")]) two_shuffled
           "u2").
  - apply reachable_running, two_joined_reachable.
  - simpl. intros k [<-|[<-|[]]]; discriminate.
  - reflexivity.
  - simpl. auto.
Defined.

(** X11. On an open, well-formed registry of two or more, a shuffle
    request with the admin secret hangs exactly as long as the engine
    finds no acceptable draw within the fuel; and it returns at the
    first attempt when every draw of the generator is 0. *)
Theorem shuffle_returns_when_engine_does (s : state) (fuel : nat)
    (secret : option string) (c : nat) :
  registry_wf (participants s) ->
  require_admin secret s = true ->
  shuffled s = false ->
  2 <= List.length (participants s) ->
  (shuffle fuel secret s = Diverges <->
   build_valid_assignment fuel (random_state s) (Dict.keys (participants s))
   = None) /\
  exists assignments s',
    shuffle 1 secret (with_random (zeros c) s)
    = Returns (ShuffleReady assignments) s'.
Proof.
  intros Hwf Hadm Hopen Hlen. split.
  - destruct (@shuffle_open fuel secret s Hwf Hadm Hopen Hlen)
      as [[Hd Hn]|(receivers & g & l & _ & _ & Hret)].
    + tauto.
    + split; [congruence|]. intros Hn. revert Hret.
      unfold shuffle. rewrite Hadm, Hopen, Hn. cbn [negb].
      destruct (List.length (participants s) <? 2)%nat; discriminate.
  - destruct (@shuffle_open 1 secret (with_random (zeros c) s) Hwf Hadm
                Hopen Hlen)
      as [[_ Hn]|(receivers & g & l & _ & _ & Hret)].
    + cbn [with_random random_state participants] in Hn.
      destruct Hwf as [Hnd _].
      assert (Hk : 2 <= List.length (Dict.keys (participants s)))
        by (unfold Dict.keys; now rewrite length_map).
      destruct (build_valid_assignment_zeros c Hnd Hk) as (m & g' & Hz).
      congruence.
    + eauto.
Qed.

Lemma shuffle_returns_when_engine_does_witness :
  (shuffle 0 (Some "santaadmin") two_joined = Diverges <->
   build_valid_assignment 0 (random_state two_joined)
     (Dict.keys (participants two_joined)) = None) /\
  exists assignments s',
    shuffle 1 (Some "santaadmin") (with_random (zeros 5) two_joined)
    = Returns (ShuffleReady assignments) s'.
Proof.
  apply (@shuffle_returns_when_engine_does two_joined 0 (Some "santaadmin") 5).
  - split; repeat constructor; simpl; intuition discriminate.
  - reflexivity.
  - reflexivity.
  - simpl. lia.
Defined.

(** ** Asking for an assignment *)

(** X12. In every state of a running service whose gate is open, a
    registered participant who asks for the assignment gets the 400
    saying that it is not ready. *)
Theorem no_assignment_before_shuffle (s : state) (participant_id : string) :
  running s ->
  shuffled s = false ->
  Dict.mem participant_id (participants s) = true ->
  get_assignment participant_id s = Raises NotReady s.
Proof.
  intros Hs Hopen Hmem. apply running_consistent in Hs.
  destruct Hs as [_ Hun]. specialize (Hun Hopen).
  rewrite any_assigned_false_iff in Hun.
  unfold Dict.mem in Hmem. unfold get_assignment.
  destruct (Dict.get participant_id (participants s)) as [p|] eqn:E;
    [|discriminate].
  apply get_In in E. now rewrite (Hun _ _ E).
Qed.

Lemma no_assignment_before_shuffle_witness :
  get_assignment "u2" two_joined = Raises NotReady two_joined.
Proof.
  apply (@no_assignment_before_shuffle two_joined "u2").
  - apply reachable_running, two_joined_reachable.
  - reflexivity.
  - reflexivity.
Defined.

(** ** Restarts and failures *)

Lemma add_participant_raises participant_in uuid4 s e s' :
  add_participant participant_in uuid4 s = Raises e s' ->
  s' = s /\ (e = InvalidInput \/ e = AlreadyClosed_join).
Proof.
  unfold add_participant.
  destruct (ParticipantIn.valid participant_in); cbn [negb].
  - destruct (shuffled s); [|discriminate]. intros [= <- <-]. auto.
  - intros [= <- <-]. auto.
Qed.

Lemma remove_participant_raises participant_id secret s e s' :
  remove_participant participant_id secret s = Raises e s' ->
  s' = s /\ (e = Forbidden \/ e = AlreadyClosed_remove \/ e = NotFound).
Proof.
  unfold remove_participant.
  destruct (require_admin secret s); cbn [negb];
    [|intros [= <- <-]; auto].
  destruct (shuffled s); [intros [= <- <-]; auto|].
  destruct (Dict.mem participant_id (participants s)); cbn [negb];
    [discriminate|intros [= <- <-]; auto].
Qed.

Lemma shuffle_raises fuel secret s e s' :
  registry_wf (participants s) ->
  shuffle fuel secret s = Raises e s' ->
  s' = s /\
  (e = Forbidden \/ e = AlreadyShuffled \/ e = InsufficientParticipants).
Proof.
  intros Hwf.
  destruct (require_admin secret s) eqn:Hadm.
  2:{ unfold shuffle. rewrite Hadm. intros [= <- <-]. auto. }
  destruct (shuffled s) eqn:Hopen.
  { unfold shuffle. rewrite Hadm, Hopen. intros [= <- <-]. auto. }
  destruct (Nat.ltb_spec (List.length (participants s)) 2) as [Hlt|Hge].
  { unfold shuffle. rewrite Hadm, Hopen.
    apply Nat.ltb_lt in Hlt. rewrite Hlt. intros [= <- <-]. auto. }
  destruct (@shuffle_open fuel secret s Hwf Hadm Hopen Hge)
    as [[-> _]|(receivers & g & l & _ & _ & ->)]; discriminate.
Qed.

Lemma get_assignment_raises participant_id s e s' :
  get_assignment participant_id s = Raises e s' ->
  s' = s /\
  (e = NotFound \/ e = NotReady \/
   (e = AssignmentIncomplete /\
    exists p r, In (participant_id, p) (participants s) /\
                assignedTo p = Some r /\
                Dict.get r (participants s) = None)).
Proof.
  unfold get_assignment.
  destruct (Dict.get participant_id (participants s)) as [p|] eqn:Ep;
    [|intros [= <- <-]; auto].
  destruct (assignedTo p) as [r|] eqn:Er; [|intros [= <- <-]; auto].
  destruct (PyStr.truthy r); cbn [negb]; [|intros [= <- <-]; auto].
  destruct (Dict.get r (participants s)) eqn:Erec; [discriminate|].
  intros [= <- <-]. split; [reflexivity|]. right. right.
  split; [reflexivity|]. exists p, r. apply get_In in Ep. auto.
Qed.

(** ** Loading *)

(** X16. The comprehension of [load_data] passes over the items that
    lack ["id"] or ["name"]: with or without them in the list it builds
    the same registry, or fails alike. *)
Theorem load_skips_incomplete_items (participant_list : list item)
    (acc : Dict.t Participant) :
  load_participants (filter has_id_and_name participant_list) acc
  = load_participants participant_list acc.
Proof.
  revert acc. induction participant_list as [|it l IH]; intros acc.
  - reflexivity.
  - cbn [filter load_participants]. unfold has_id_and_name at 1.
    destruct (Dict.mem "id" it && Dict.mem "name" it) eqn:E.
    + cbn [load_participants]. rewrite E.
      destruct (Dict.get "id" it) as [[key|]|]; try reflexivity.
      destruct (Participant_of_item it); [apply IH|reflexivity].
    + apply IH.
Qed.

(** X17. An item of the data file that has both ["id"] and ["name"]
    but [null] in one of them is not passed over: [load_data] raises the
    validation error and leaves the globals as they were. *)
Theorem load_aborts_on_null (s : state) (raw : snapshot) (it : item) :
  DATA_FILE s = Some raw ->
  In it (stored_items raw) ->
  loadable it = false ->
  load_data s = Raises ValidationError s.
Proof.
  intros Hfile Hin Hbad. unfold load_data. rewrite Hfile. cbv zeta.
  destruct (load_participants (stored_items raw) Dict.empty) as [d|] eqn:E;
    [|reflexivity].
  assert (Hall : forallb loadable (stored_items raw) = true).
  { apply (load_participants_loadable _ Dict.empty). eauto. }
  rewrite forallb_forall in Hall. rewrite (Hall _ Hin) in Hbad. discriminate.
Qed.

Lemma load_aborts_on_null_witness :
  load_data
    {| ADMIN_SECRET := "santaadmin"; participants := Dict.empty;
       shuffled := false;
       DATA_FILE :=
         Some {| snap_participants :=
                   Some [ [("id", Some "u1"); ("name", Some "Alice")];
                          [("id", Some "u2"); ("name", None)] ];
                 snap_shuffled := Some false |};
       random_state := zeros 0 |}
  = Raises ValidationError
      {| ADMIN_SECRET := "santaadmin"; participants := Dict.empty;
         shuffled := false;
         DATA_FILE :=
           Some {| snap_participants :=
                     Some [ [("id", Some "u1"); ("name", Some "Alice")];
                            [("id", Some "u2"); ("name", None)] ];
                   snap_shuffled := Some false |};
         random_state := zeros 0 |}.
Proof.
  apply (@load_aborts_on_null _
           {| snap_participants :=
                Some [ [("id", Some "u1"); ("name", Some "Alice")];
                       [("id", Some "u2"); ("name", None)] ];
              snap_shuffled := Some false |}
           [("id", Some "u2"); ("name", None)]).
  - reflexivity.
  - simpl. auto.
  - reflexivity.
Defined.

Lemma load_participants_lookup l acc d k :
  load_participants l acc = Some d ->
  Dict.get k d =
  match last_record k l with Some p => Some p | None => Dict.get k acc end.
Proof.
  revert acc. induction l as [|it l IH]; intros acc.
  - simpl. now intros [= <-].
  - cbn [load_participants last_record]. unfold has_id_and_name.
    destruct (Dict.mem "id" it && Dict.mem "name" it).
    + unfold Participant_of_item.
      destruct (Dict.get "id" it) as [[key|]|]; try discriminate.
      destruct (Dict.get "name" it) as [[n|]|]; try discriminate.
      intros H. rewrite (IH _ H). cbn [id].
      destruct (last_record k l); [reflexivity|]. rewrite get_set.
      now destruct (String.eqb k key).
    + intros H. rewrite (IH _ H). now destruct (last_record k l).
Qed.

(** X18. After [load_data] has read a data file, the record the
    registry holds under an identity is the one built from the last
    item of the file that has both keys and carries this identity:
    among items with the same ["id"] the last one wins, and an identity
    no such item carries is not registered. *)
Theorem load_keeps_last_record (s s' : state) (raw : snapshot) (k : string) :
  DATA_FILE s = Some raw ->
  load_data s = Returns tt s' ->
  Dict.get k (participants s') = last_record k (stored_items raw).
Proof.
  intros Hfile. unfold load_data. rewrite Hfile. cbv zeta.
  destruct (load_participants (stored_items raw) Dict.empty) as [d|] eqn:E;
    [|discriminate].
  intros [= <-]. cbn [with_registry participants].
  rewrite (load_participants_lookup _ _ k E).
  now destruct (last_record k (stored_items raw)).
Qed.

Lemma load_keeps_last_record_witness :
  Dict.get "u1"
    (participants
       {| ADMIN_SECRET := "santaadmin";
          participants :=
            [ ("u1", {| id := "u1"; name := "Alicia"; giftPreference := None;
                        assignedTo := None |});
              ("u2", {| id := "u2"; name := "Bob"; giftPreference := None;
                        assignedTo := None |}) ];
          shuffled := false;
          DATA_FILE :=
            Some {| snap_participants :=
                      Some [ [("id", Some "u1"); ("name", Some "Alice")];
                             [("id", Some "u2"); ("name", Some "Bob")];
                             [("name", Some "nobody")];
                             [("id", Some "u1"); ("name", Some "Alicia")] ];
                    snap_shuffled := None |};
          random_state := zeros 0 |})
  = last_record "u1"
      (stored_items
         {| snap_participants :=
              Some [ [("id", Some "u1"); ("name", Some "Alice")];
                     [("id", Some "u2"); ("name", Some "Bob")];
                     [("name", Some "nobody")];
                     [("id", Some "u1"); ("name", Some "Alicia")] ];
            snap_shuffled := None |}).
Proof.
  apply (@load_keeps_last_record
           {| ADMIN_SECRET := "santaadmin"; participants := Dict.empty;
              shuffled := false;
              DATA_FILE :=
                Some {| snap_participants :=
                          Some [ [("id", Some "u1"); ("name", Some "Alice")];
                                 [("id", Some "u2"); ("name", Some "Bob")];
                                 [("name", Some "nobody")];
                                 [("id", Some "u1"); ("name", Some "Alicia")] ];
                        snap_shuffled := None |};
              random_state := zeros 0 |}).
  - reflexivity.
  - reflexivity.
Defined.

(** ** The engine on small inputs *)

(** X19. On a single identity the loop of [build_valid_assignment]
    never returns, whatever the generator and the fuel; on no identity
    it returns the empty assignment at once, without a draw. *)
Theorem engine_on_one_and_none :
  (forall fuel g x, build_valid_assignment fuel g [x] = None) /\
  (forall fuel g, build_valid_assignment (S fuel) g [] = Some (Dict.empty, g)).
Proof.
  split.
  - intros fuel g x. induction fuel as [|fuel IH]; [reflexivity|].
    cbn [build_valid_assignment]. unfold Random.shuffle.
    cbn [List.length Nat.sub Random.shuffle_from combine].
    unfold no_self_pair. cbn [forallb fst snd].
    rewrite String.eqb_refl. cbn [negb andb]. exact IH.
  - reflexivity.
Qed.

(** X20. On two different identities every assignment the loop returns
    is the exchange: each is given the other. *)
Theorem engine_on_two (fuel : nat) (g : Random.rng) (a b : string)
    (m : Dict.t string) (g' : Random.rng) :
  a <> b ->
  build_valid_assignment fuel g [a; b] = Some (m, g') ->
  m = [(a, b); (b, a)].
Proof.
  intros Hab H. apply build_valid_assignment_accepts in H.
  destruct H as (receivers & Hperm & Hself & ->).
  apply Permutation_sym, Permutation_length_2_inv in Hperm.
  destruct Hperm as [->| ->].
  - simpl in Hself. now rewrite String.eqb_refl in Hself.
  - unfold Dict.of_pairs. simpl.
    destruct (String.eqb_spec b a); [congruence|reflexivity].
Qed.

Lemma engine_on_two_witness :
  [("u1", "u2"); ("u2", "u1")] = [("u1", "u2"); ("u2", "u1")].
Proof.
  apply (@engine_on_two 1 (zeros 0) "u1" "u2" [("u1", "u2"); ("u2", "u1")]
           (zeros 1)).
  - discriminate.
  - reflexivity.
Defined.

(** ** What a join stores *)

(** X22. The name a successful join stores is the submitted name
    without the whitespace around it: the submitted name is a run of
    whitespace, the stored name, and a run of whitespace, and the stored
    name neither starts nor ends with a whitespace character. *)
Theorem joined_name_is_trimmed (participant_in : ParticipantIn.t)
    (uuid4 : string) (s : state) :
  ParticipantIn.name participant_in <> "" ->
  shuffled s = false ->
  exists s' p l r,
    add_participant participant_in uuid4 s
    = Returns (Joined uuid4 ("/my-assignment/" ++ uuid4)) s' /\
    Dict.get uuid4 (participants s') = Some p /\
    ParticipantIn.name participant_in = (l ++ name p ++ r)%string /\
    PyStr.blank l = true /\ PyStr.blank r = true /\
    (forall c rest, name p = String c rest -> PyStr.isspace c = false) /\
    (forall t u, name p = (t ++ u)%string -> u <> "" ->
                 PyStr.blank u = false).
Proof.
  intros Hname Hopen.
  destruct (@add_participant_open participant_in uuid4 s Hname Hopen)
    as (s' & Hret & Hget).
  destruct (strip_decompose (ParticipantIn.name participant_in))
    as (l & r & Hs & Hl & Hr).
  destruct (strip_trimmed (ParticipantIn.name participant_in)) as [Hh Ht].
  eexists s', _, l, r. split; [exact Hret|]. split; [exact Hget|].
  cbn [name]. auto.
Qed.

Lemma joined_name_is_trimmed_witness :
  exists s' p l r,
    add_participant
      {| ParticipantIn.name := "  Carol Ann ";
         ParticipantIn.giftPreference := None |} "u3" two_joined
    = Returns (Joined "u3" ("/my-assignment/" ++ "u3")) s' /\
    Dict.get "u3" (participants s') = Some p /\
    "  Carol Ann " = (l ++ name p ++ r)%string /\
    PyStr.blank l = true /\ PyStr.blank r = true /\
    (forall c rest, name p = String c rest -> PyStr.isspace c = false) /\
    (forall t u, name p = (t ++ u)%string -> u <> "" ->
                 PyStr.blank u = false).
Proof.
  apply (@joined_name_is_trimmed
           {| ParticipantIn.name := "  Carol Ann ";
              ParticipantIn.giftPreference := None |} "u3" two_joined).
  - discriminate.
  - reflexivity.
Defined.

(** ** The gate below two participants *)

(** C4, as stated, fails: a service started on a data file that holds
    one participant with a leftover assignment has its gate closed, and
    a shuffle request with the admin secret is rejected because the
    shuffle is taken to be done, not for want of participants. *)
Lemma shuffle_below_two_after_stray_load :
  boot "santaadmin" (Some stray_file) (zeros 0) = Returns tt stray_loaded /\
  List.length (participants stray_loaded) = 1 /\
  require_admin (Some "santaadmin") stray_loaded = true /\
  shuffle 1 (Some "santaadmin") stray_loaded
  = Raises AlreadyShuffled stray_loaded /\
  shuffle 1 (Some "santaadmin") stray_loaded
  <> Raises InsufficientParticipants stray_loaded.
Proof.
  split; [reflexivity|]. split; [reflexivity|]. split; [reflexivity|].
  split; [reflexivity|]. discriminate.
Qed.

(** C4, amended. Whenever the registry holds no or one participant, a
    shuffle request raises whatever the fuel, zero included, and leaves
    the state with its generator untouched: the rejection loop is not
    entered. For a request that passes the check of the admin secret the
    error is the one asking for two participants while the gate is
    open, and the one saying that the shuffle is done once the gate is
    closed. *)
Theorem shuffle_needs_two (s : state) :
  List.length (participants s) < 2 ->
  forall fuel secret,
    (exists e, shuffle fuel secret s = Raises e s) /\
    shuffle fuel secret s = shuffle 0 secret s /\
    (require_admin secret s = true -> shuffled s = false ->
     shuffle fuel secret s = Raises InsufficientParticipants s) /\
    (require_admin secret s = true -> shuffled s = true ->
     shuffle fuel secret s = Raises AlreadyShuffled s).
Proof.
  intros Hlt fuel secret.
  rewrite !shuffle_below_two by assumption.
  split; [eauto|]. split; [reflexivity|]. split; now intros -> ->.
Qed.

Lemma shuffle_needs_two_witness :
  shuffle 7 (Some "santaadmin") (fresh "santaadmin" (zeros 0))
  = Raises InsufficientParticipants (fresh "santaadmin" (zeros 0)) /\
  shuffle 7 (Some "santaadmin") (fresh "santaadmin" (zeros 0))
  = shuffle 0 (Some "santaadmin") (fresh "santaadmin" (zeros 0)) /\
  shuffle 7 (Some "santaadmin") stray_loaded
  = Raises AlreadyShuffled stray_loaded.
Proof.
  assert (H0 : List.length (participants (fresh "santaadmin" (zeros 0))) < 2)
    by (simpl; lia).
  assert (H1 : List.length (participants stray_loaded) < 2) by (simpl; lia).
  destruct (@shuffle_needs_two (fresh "santaadmin" (zeros 0)) H0 7
              (Some "santaadmin")) as (_ & Hfuel & Hopen & _).
  destruct (@shuffle_needs_two stray_loaded H1 7 (Some "santaadmin"))
    as (_ & _ & _ & Hclosed).
  split; [|split].
  - apply Hopen; reflexivity.
  - exact Hfuel.
  - apply Hclosed; reflexivity.
Defined.

(** ** The flag after loading *)

Lemma any_assigned_true_iff d :
  NoDup (Dict.keys d) ->
  any_assigned d = true <->
  exists k p r, Dict.get k d = Some p /\ assignedTo p = Some r.
Proof.
  intros Hnd. unfold any_assigned. rewrite existsb_exists. split.
  - intros (p & Hin & Hp). unfold Dict.values in Hin.
    apply in_map_iff in Hin. destruct Hin as ([k q] & <- & Hin).
    simpl in Hp. destruct (assignedTo q) as [r|] eqn:E; [|discriminate].
    exists k, q, r. split; [now apply In_get|assumption].
  - intros (k & p & r & Hget & Hr). exists p. split.
    + apply get_In in Hget. change p with (snd (k, p)). now apply in_map.
    + now rewrite Hr.
Qed.

(** C10. Whenever [load_data] reads a snapshot, the registry it leaves
    holds under each identity the record of the last stored item that
    has both keys and carries it, and the flag it leaves is the stored
    flag ([False] when the key is missing) or-ed with whether any of
    these records has [assignedTo] set: the gate is closed exactly when
    the stored flag is true or some loaded record carries an
    assignment. So a snapshot whose flag is false or missing and which
    holds an assignment loads as closed. The load goes through whenever
    every item that has both ["id"] and ["name"] has strings there. *)
Theorem load_data_reconciles_flag (s : state) (raw : snapshot) :
  DATA_FILE s = Some raw ->
  (forall s',
      load_data s = Returns tt s' ->
      (forall k,
          Dict.get k (participants s') = last_record k (stored_items raw)) /\
      shuffled s' = (stored_flag raw || any_assigned (participants s')) /\
      (shuffled s' = true <->
       stored_flag raw = true \/
       exists k p r,
         last_record k (stored_items raw) = Some p /\
         assignedTo p = Some r)) /\
  (forallb loadable (stored_items raw) = true ->
   exists s', load_data s = Returns tt s').
Proof.
  intros Hfile. unfold load_data. rewrite Hfile. cbv zeta. split.
  - intros s'.
    destruct (load_participants (stored_items raw) Dict.empty) as [d|] eqn:E;
      [|discriminate].
    intros [= <-]. cbn [with_registry shuffled participants].
    assert (Hlook : forall k, Dict.get k d = last_record k (stored_items raw)).
    { intros k. rewrite (load_participants_lookup _ _ k E).
      now destruct (last_record k (stored_items raw)). }
    assert (Hnd : NoDup (Dict.keys d)).
    { eapply load_participants_wf; [|exact E]. split; constructor. }
    split; [exact Hlook|]. split; [reflexivity|].
    rewrite orb_true_iff, (@any_assigned_true_iff d Hnd).
    split; (intros [H|(k & p & r & Hk & Hr)]; [now left|right]);
      exists k, p, r; split; try assumption.
    + now rewrite <- Hlook.
    + now rewrite Hlook.
  - intros Hl.
    apply (load_participants_loadable _ Dict.empty) in Hl.
    destruct Hl as [d ->]. eauto.
Qed.

Lemma load_data_reconciles_flag_witness :
  exists s',
    load_data flag_lost = Returns tt s' /\
    stored_flag flag_lost_file = false /\
    Dict.get "u1" (participants s')
    = Some {| id := "u1"; name := "Alice"; giftPreference := None;
              assignedTo := Some "u2" |} /\
    shuffled s' = true.
Proof.
  destruct (@load_data_reconciles_flag flag_lost flag_lost_file eq_refl)
    as [Hflag Hloads].
  destruct (Hloads eq_refl) as [s' Hs'].
  destruct (Hflag s' Hs') as (Hlook & _ & Hiff).
  exists s'. split; [exact Hs'|]. split; [reflexivity|]. split.
  - rewrite Hlook. reflexivity.
  - apply Hiff. right.
    exists "u1", {| id := "u1"; name := "Alice"; giftPreference := None;
                    assignedTo := Some "u2" |}, "u2".
    split; reflexivity.
Defined.

(** ** Failing writes *)

Lemma consistent_ext a b :
  participants a = participants b -> shuffled a = shuffled b ->
  consistent a -> consistent b.
Proof. unfold consistent. now intros -> ->. Qed.

Lemma memory_ok_ext a b :
  participants a = participants b -> shuffled a = shuffled b ->
  memory_ok a -> memory_ok b.
Proof. unfold memory_ok, consistent. now intros -> ->. Qed.

Lemma serving_consistent s : serving s -> consistent s.
Proof.
  induction 1 as [secret file g s Hboot|s r s' _ IH Hstep|s r s' _ IH Hstep].
  - eapply boot_consistent, Hboot.
  - eapply effect_consistent; [exact IH|]. eapply handle_effect; eauto.
  - apply (@consistent_ext s'); try reflexivity.
    eapply effect_consistent; [exact IH|]. eapply handle_effect; eauto.
Qed.

Lemma running_serving s : running s -> serving s.
Proof.
  induction 1 as [secret file g s Hboot|s r s' _ IH Hstep].
  - eapply serving_boot, Hboot.
  - eapply serving_handle; eauto.
Qed.

Lemma effect_memory_ok s s' : memory_ok s -> effect s s' -> memory_ok s'.
Proof.
  intros (Hc & Hok & Htwo) [->|_ Hopen Hwf Hun _|_ Hclosed Hlen Hwf Hok' _].
  - exact (conj Hc (conj Hok Htwo)).
  - split; [now split|]. split; [now apply unassigned_assigned_ok|].
    congruence.
  - split; [split; [assumption|congruence]|]. split; [assumption|auto].
Qed.

Lemma memory_ok_empty s :
  participants s = Dict.empty -> shuffled s = false -> memory_ok s.
Proof.
  intros Hd Hb. unfold memory_ok, consistent, registry_wf, assigned_ok.
  rewrite Hd, Hb. simpl.
  split; [split; [split; constructor|reflexivity]|].
  split; [intros k p r []|discriminate].
Qed.

Lemma serving_from_fresh_ok s :
  serving_from_fresh s -> memory_ok s /\ file_sound s.
Proof.
  induction 1 as [secret g|s r s' _ [IHm IHf] Hstep
                 |s r s' _ [IHm IHf] Hstep|s secret g s' _ [IHm IHf] Hboot].
  - split; [now apply memory_ok_empty|now left].
  - pose proof (handle_effect r (proj1 IHm) Hstep) as He.
    pose proof (effect_memory_ok IHm He) as Hm'. split; [assumption|].
    destruct He as [->|_ _ _ _ Hf|_ _ _ _ _ Hf]; [assumption| |];
      right; exists s'; auto.
  - pose proof (handle_effect r (proj1 IHm) Hstep) as He.
    pose proof (effect_memory_ok IHm He) as Hm'. split.
    + now apply (@memory_ok_ext s').
    + exact IHf.
  - destruct IHf as [Hnone|(s0 & Hfile & Hm0)].
    + revert Hboot. unfold boot, load_data. cbn [DATA_FILE]. rewrite Hnone.
      intros [= <-]. split; [now apply memory_ok_empty|now left].
    + revert Hboot. unfold boot.
      rewrite (@load_saved _ s0);
        [|apply Hm0|apply Hm0|cbn [DATA_FILE]; exact Hfile].
      intros [= <-]. split.
      * now apply (@memory_ok_ext s0).
      * right. exists s0. auto.
Qed.

Lemma returned_write_saved r s resp s' :
  writes r = true -> handle r s = Returns resp s' ->
  DATA_FILE s' = Some (payload s').
Proof.
  destruct r as [participant_in uuid4|secret|participant_id secret
                |secret fuel|participant_id]; cbn [writes handle];
    try discriminate; intros _.
  - unfold add_participant.
    destruct (ParticipantIn.valid participant_in); cbn [negb];
      [|discriminate].
    destruct (shuffled s); [discriminate|]. now intros [= _ <-].
  - unfold remove_participant.
    destruct (require_admin secret s); cbn [negb]; [|discriminate].
    destruct (shuffled s); [discriminate|].
    destruct (Dict.mem participant_id (participants s)); cbn [negb];
      [|discriminate].
    now intros [= _ <-].
  - unfold shuffle.
    destruct (require_admin secret s); cbn [negb]; [|discriminate].
    destruct (shuffled s); [discriminate|].
    destruct (List.length (participants s) <? 2)%nat; [discriminate|].
    destruct (build_valid_assignment _ _ _) as [[m g]|]; [|discriminate].
    destruct (assign_all m (participants s)) as [d [|]]; [|discriminate].
    destruct (assignments_for_admin _ _); [|discriminate].
    now intros [= _ <-].
Qed.

(** X13. When a join, a removal or a shuffle returns in a service that
    was started on any data file and whose earlier writes may have
    failed, the data file is up to date: a process started on it, with
    any admin secret and any generator state, loads without error the
    registry and the flag the request left in memory. *)
Theorem restart_after_returned_write (s : state) (r : request)
    (resp : response) (s' : state) (secret : string) (g : Random.rng) :
  serving s ->
  writes r = true ->
  handle r s = Returns resp s' ->
  exists s'',
    boot secret (DATA_FILE s') g = Returns tt s'' /\
    participants s'' = participants s' /\
    shuffled s'' = shuffled s' /\
    DATA_FILE s'' = DATA_FILE s'.
Proof.
  intros Hs Hw Hret.
  pose proof (returned_write_saved _ _ Hw Hret) as Hfile.
  assert (Hc : consistent s').
  { eapply effect_consistent; [apply (serving_consistent Hs)|].
    eapply (handle_effect r); [apply (serving_consistent Hs)|].
    now rewrite Hret. }
  destruct Hc as [Hwf Hun].
  eexists. split.
  - unfold boot. apply (@load_saved _ s'); auto.
  - repeat split.
Qed.

Lemma restart_after_returned_write_witness :
  exists s'',
    boot "another secret" (DATA_FILE two_shuffled) (zeros 9)
    = Returns tt s'' /\
    participants s'' = participants two_shuffled /\
    shuffled s'' = shuffled two_shuffled /\
    DATA_FILE s'' = DATA_FILE two_shuffled.
Proof.
  apply (@restart_after_returned_write two_joined
           (Shuffle (Some "santaadmin") 1)
           (ShuffleReady [("Alice", "Bob"); ("Bob", "Alice")])
           two_shuffled "another secret" (zeros 9)).
  - apply running_serving, reachable_running, two_joined_reachable.
  - reflexivity.
  - reflexivity.
Defined.

(** X14. In a service started on any data file, with writes that go
    through or fail, a request that a handler rejects leaves the state
    exactly as it found it, and what is raised is one of the handler's
    HTTP errors or the rejection of the body: each [raise] of a handler
    comes before its first change of the globals, and no subscript of
    [shuffle] raises [KeyError]. A write that fails inside [save_data]
    is not such a rejection; it is the transition to [stale_write]. *)
Theorem rejected_request_changes_nothing (s : state) (r : request)
    (e : exception) (s' : state) :
  serving s ->
  handle r s = Raises e s' ->
  s' = s /\
  (e = InvalidInput \/ exists status_code detail,
                         e = HTTPException status_code detail).
Proof.
  intros Hs. apply serving_consistent in Hs. destruct Hs as [Hwf _].
  destruct r as [participant_in uuid4|secret|participant_id secret
                |secret fuel|participant_id]; cbn [handle]; intros H.
  - apply add_participant_raises in H. destruct H as [-> [->| ->]];
      split; try reflexivity; [now left|right; now eexists _, _].
  - unfold list_participants in H.
    destruct (require_admin secret s); [discriminate|].
    injection H as <- <-. split; [reflexivity|right; now eexists _, _].
  - apply remove_participant_raises in H.
    destruct H as [-> [->|[->| ->]]]; split; try reflexivity;
      right; now eexists _, _.
  - apply (@shuffle_raises fuel secret s e s' Hwf) in H.
    destruct H as [-> [->|[->| ->]]]; split; try reflexivity;
      right; now eexists _, _.
  - apply get_assignment_raises in H.
    destruct H as [-> [->|[->|[-> _]]]]; split; try reflexivity;
      right; now eexists _, _.
Qed.

Lemma rejected_request_changes_nothing_witness :
  stale_write two_joined two_shuffled = stale_write two_joined two_shuffled /\
  (AlreadyClosed_remove = InvalidInput \/
   exists status_code detail,
     AlreadyClosed_remove = HTTPException status_code detail).
Proof.
  apply (@rejected_request_changes_nothing
           (stale_write two_joined two_shuffled)
           (Remove "u1" (Some "santaadmin")) AlreadyClosed_remove
           (stale_write two_joined two_shuffled)).
  - apply (@serving_write_failed two_joined (Shuffle (Some "santaadmin") 1)).
    + apply running_serving, reachable_running, two_joined_reachable.
    + reflexivity.
  - reflexivity.
Defined.

(** X15. In a service that started on a fresh installation and
    restarts on its own data file, with writes that go through or fail,
    whatever a handler raises is one of the eight failures meant for the
    client: [get_assignment] never raises the 500 for an assignment
    that names nobody, and no subscript raises [KeyError]. *)
Theorem only_client_errors (s : state) (r : request) (e : exception)
    (s' : state) :
  serving_from_fresh s ->
  handle r s = Raises e s' ->
  client_error e.
Proof.
  intros Hs. apply serving_from_fresh_ok in Hs.
  destruct Hs as (((Hwf & _) & Hok & _) & _).
  unfold client_error.
  destruct r as [participant_in uuid4|secret|participant_id secret
                |secret fuel|participant_id]; cbn [handle]; intros H.
  - apply add_participant_raises in H. tauto.
  - unfold list_participants in H.
    destruct (require_admin secret s); [discriminate|].
    injection H as <- _. tauto.
  - apply remove_participant_raises in H. tauto.
  - apply (@shuffle_raises fuel secret s e s' Hwf) in H. tauto.
  - apply get_assignment_raises in H.
    destruct H as (_ & [->|[->|(_ & p & r & Hin & Hr & Hnone)]]);
      [tauto|tauto|].
    destruct (Hok _ _ _ Hin Hr) as (Hkey & _).
    apply get_None_iff in Hnone. contradiction.
Qed.

Lemma reachable_serving_from_fresh s : reachable s -> serving_from_fresh s.
Proof.
  induction 1 as [secret g|s r s' _ IH Hstep|s secret g s' _ IH Hboot].
  - apply sf_fresh.
  - eapply sf_handle; eauto.
  - eapply sf_restart; eauto.
Qed.

Lemma only_client_errors_witness : client_error NotFound.
Proof.
  apply (@only_client_errors (stale_write two_joined two_shuffled)
           (GetAssignment "u9") NotFound
           (stale_write two_joined two_shuffled)).
  - apply (@sf_write_failed two_joined (Shuffle (Some "santaadmin") 1)).
    + apply reachable_serving_from_fresh, two_joined_reachable.
    + reflexivity.
  - reflexivity.
Defined.
